(** * chart_maker: normalisation, derived metrics and summary of play-count snapshots

    A shallow embedding of the three stages of [chart_maker]:

    - [transform.py]: [_ensure_columns], [_build_timestamp], [normalize];
    - [metrics.py]:   [add_metrics];
    - [report.py]:    [build_summary_table];
    - [main.py]:      the frames [cmd_render] computes.

    A pandas DataFrame is a list of rows, in frame order.  A float64 cell is
    an exact rational, an infinity or NaN (rounding is not modelled).  A
    datetime64 cell is [Some ns] (nanoseconds since the epoch) or [None]
    (NaT).  What pandas itself decides (which strings of a column parse as a
    date or as a number, how a timestamp prints, in which order its default
    quicksort leaves rows that compare equal) is the interface [Pandas];
    every definition and theorem is parametric in it.  [sort_values] on
    several columns is pandas' stable lexsort; on a single column it is the
    quicksort of the interface, which is not stable. *)

From Stdlib Require Import List String Ascii Bool Arith ZArith QArith Lia.
From Stdlib Require Import DecimalString Sorted Permutation.
Import ListNotations.

Local Open Scope string_scope.
Local Open Scope list_scope.
Local Open Scope nat_scope.

(** ** float64 cells *)

Inductive float64 : Type :=
| Finite (q : Q)
| Inf (negative : bool)
| NaN.

Definition notna (x : float64) : bool :=
  match x with NaN => false | _ => true end.

(** [x < 0] and [x > 0] on a column: a comparison with NaN is False. *)
Definition flt0 (x : float64) : bool :=
  match x with
  | Finite q => negb (Qle_bool 0 q)
  | Inf negative => negative
  | NaN => false
  end.

Definition fgt0 (x : float64) : bool :=
  match x with
  | Finite q => negb (Qle_bool q 0)
  | Inf negative => negb negative
  | NaN => false
  end.

Definition fneg (x : float64) : float64 :=
  match x with
  | Finite q => Finite (Qred (- q))
  | Inf negative => Inf (negb negative)
  | NaN => NaN
  end.

Definition fadd (x y : float64) : float64 :=
  match x, y with
  | NaN, _ | _, NaN => NaN
  | Finite a, Finite b => Finite (Qred (a + b))
  | Finite _, Inf s => Inf s
  | Inf s, Finite _ => Inf s
  | Inf s, Inf t => if Bool.eqb s t then Inf s else NaN
  end.

Definition fsub (x y : float64) : float64 := fadd x (fneg y).

Definition fis0 (x : float64) : bool :=
  match x with Finite q => Qeq_bool q 0 | _ => false end.

(** IEEE division, without signed zeros. *)
Definition fdiv (x y : float64) : float64 :=
  match x, y with
  | NaN, _ | _, NaN => NaN
  | Finite a, Finite b =>
      if Qeq_bool b 0
      then (if Qeq_bool a 0 then NaN else Inf (flt0 x))
      else Finite (Qred (a / b))
  | Finite _, Inf _ => Finite 0
  | Inf s, Finite _ => Inf (xorb s (flt0 y))
  | Inf _, Inf _ => NaN
  end.

(** Python's [x or 0] on a float: 0.0 is the only falsy float; NaN is truthy. *)
Definition or0 (x : float64) : float64 :=
  if fis0 x then Finite 0 else x.

(** ** What the code takes from pandas *)

(** [frame.take(indexer)]: the rows at the given positions, in that order. *)
Definition take {A : Type} (indexer : list nat) (l : list A) : list A :=
  flat_map (fun i => match nth_error l i with Some x => [x] | None => [] end) indexer.

Class Pandas : Type := {
  (** [pd.to_datetime(col, errors="coerce")] on a column of strings: one
      cell for each string, [None] being NaT.  The format is inferred from
      the column, so what a string parses to depends on the column it is in. *)
  to_datetime : list string -> list (option Z);
  to_datetime_length :
    forall col, List.length (to_datetime col) = List.length col;
  (** [str] of a valid timestamp, as [astype(str)] renders it. *)
  datetime_str : Z -> string;
  (** [pd.to_numeric(s, errors="coerce")] on one string; NaN when it is no number. *)
  str_to_numeric : string -> float64;
  (** [np.argsort(col, kind="quicksort")] under the order [leb]: the
      positions of the column in an ascending order.  Which of two equal
      cells comes first is left open: quicksort is not stable. *)
  argsort : forall A : Type, (A -> A -> bool) -> list A -> list nat;
  argsort_permutation :
    forall (A : Type) (leb : A -> A -> bool) (col : list A),
      Permutation (argsort A leb col) (seq 0 (List.length col));
  argsort_sorted :
    forall (A : Type) (leb : A -> A -> bool) (col : list A),
      (forall x y, leb x y = true \/ leb y x = true) ->
      (forall x y z, leb x y = true -> leb y z = true -> leb x z = true) ->
      StronglySorted (fun a b => leb a b = true) (take (argsort A leb col) col)
}.

Arguments argsort {_} {A} leb col.

(** ** Raw input *)

(** A cell of a numeric column as loaded from JSON. *)
Inductive cell : Type :=
| CNone
| CStr (s : string)
| CNum (x : float64).

Record RawRecord : Type := mkRaw {
  raw_platform : option string;
  raw_song_id : option string;
  raw_song_name : option string;
  raw_artist_name : option string;
  raw_date : option string;
  raw_hour : cell;
  raw_minute : cell;
  raw_total_plays : cell;
  raw_total_listeners : cell
}.

(** ** Normalised frames *)

(** The columns after [_ensure_columns]. *)
Record Columns : Type := mkColumns {
  platform : string;
  song_id : string;
  song_name : string;
  artist_name : string;
  date : string;
  hour : Z;
  minute : Z;
  total_plays : float64;
  total_listeners : float64
}.

Record Row : Type := mkRow {
  cols :> Columns;
  timestamp : option Z
}.

(** ** Column coercions *)

(** [astype(str)] on an object column: a missing value prints as [None]. *)
Definition astype_str (c : option string) : string :=
  match c with Some s => s | None => "None" end.

Definition to_numeric {pd : Pandas} (c : cell) : float64 :=
  match c with
  | CNone => NaN
  | CStr s => str_to_numeric s
  | CNum x => x
  end.

Definition fillna0 (x : float64) : float64 :=
  match x with NaN => Finite 0 | _ => x end.

Definition int64_min : Z := - 2 ^ 63.

Definition in_int64 (z : Z) : bool := ((int64_min <=? z) && (z <? 2 ^ 63))%bool%Z.

(** [astype(int)] on a float column: truncation toward zero; a finite value
    outside int64 comes out as the least int64 (the cast of x86-64); a
    non-finite value raises. *)
Definition astype_int (x : float64) : option Z :=
  match x with
  | Finite q =>
      let z := Z.quot (Qnum q) (Zpos (Qden q)) in
      Some (if in_int64 z then z else int64_min)
  | _ => None
  end.

(** [pd.to_numeric(col, errors="coerce").fillna(0).astype(int)] on one cell. *)
Definition to_int_cell {pd : Pandas} (c : cell) : option Z :=
  astype_int (fillna0 (to_numeric c)).

Definition ensure_row {pd : Pandas} (r : RawRecord) : option Columns :=
  match to_int_cell (raw_hour r), to_int_cell (raw_minute r) with
  | Some h, Some m =>
      Some {| platform := astype_str (raw_platform r);
              song_id := astype_str (raw_song_id r);
              song_name := astype_str (raw_song_name r);
              artist_name := astype_str (raw_artist_name r);
              date := astype_str (raw_date r);
              hour := h;
              minute := m;
              total_plays := to_numeric (raw_total_plays r);
              total_listeners := to_numeric (raw_total_listeners r) |}
  | _, _ => None
  end.

(** A column operation raises as soon as one cell does. *)
Fixpoint traverse {A B : Type} (f : A -> option B) (l : list A) : option (list B) :=
  match l with
  | [] => Some []
  | x :: l' =>
      match f x, traverse f l' with
      | Some y, Some ys => Some (y :: ys)
      | _, _ => None
      end
  end.

Definition _ensure_columns {pd : Pandas} (df : list RawRecord) : option (list Columns) :=
  traverse ensure_row df.

(** ** Timestamps *)

Definition str_int (z : Z) : string := NilZero.string_of_int (Z.to_int z).

Fixpoint zeros (n : nat) : string :=
  match n with O => "" | S n' => String "0" (zeros n') end.

Definition is_sign (c : ascii) : bool :=
  (Ascii.eqb c "+" || Ascii.eqb c "-")%bool.

(** [str.zfill(width)]. *)
Definition zfill (width : nat) (s : string) : string :=
  let n := String.length s in
  if width <=? n then s
  else match s with
       | String c s' =>
           if is_sign c then String c (zeros (width - n) ++ s')
           else zeros (width - n) ++ s
       | EmptyString => zeros width
       end.

Definition ts_str (c : Columns) : string :=
  date c ++ " " ++ zfill 2 (str_int (hour c)) ++ ":" ++ zfill 2 (str_int (minute c)).

(** The timestamp column: [pd.to_datetime(ts_str, errors="coerce")]. *)
Definition timestamps {pd : Pandas} (df : list Columns) : list (option Z) :=
  to_datetime (map ts_str df).

(** [df["timestamp"] = _build_timestamp(df)]. *)
Definition _build_timestamp {pd : Pandas} (df : list Columns) : list Row :=
  map (fun ct => {| cols := fst ct; timestamp := snd ct |}) (combine df (timestamps df)).

Definition timestamp_str {pd : Pandas} (t : option Z) : string :=
  match t with Some ns => datetime_str ns | None => "NaT" end.

(** [df["platform"] + "::" + df["song_id"] + "::" + df["timestamp"].astype(str)]. *)
Definition key {pd : Pandas} (r : Row) : string :=
  platform r ++ "::" ++ song_id r ++ "::" ++ timestamp_str (timestamp r).

(** ** Frame operations *)

Section FrameOps.
Context {A : Type}.

Section Sorting.
Variable leb : A -> A -> bool.

Fixpoint insert_sorted (x : A) (l : list A) : list A :=
  match l with
  | [] => [x]
  | y :: l' => if leb x y then x :: l else y :: insert_sorted x l'
  end.

(** [sort_values] on several columns: rows that compare equal keep their
    frame order. *)
Fixpoint sort_values (l : list A) : list A :=
  match l with
  | [] => []
  | x :: l' => insert_sorted x (sort_values l')
  end.
End Sorting.

Variable by_ : A -> string.

Definition has_key (k : string) (x : A) : bool := String.eqb (by_ x) k.

(** [df.duplicated(by)], keep="first": a row is flagged when its key was seen before. *)
Fixpoint duplicated_from (seen : list string) (l : list A) : list bool :=
  match l with
  | [] => []
  | x :: l' =>
      existsb (String.eqb (by_ x)) seen :: duplicated_from (by_ x :: seen) l'
  end.

Definition duplicated (l : list A) : list bool := duplicated_from [] l.

(** [groupby(by).tail(1)]: the rows after which their key does not occur again. *)
Fixpoint groupby_tail1 (l : list A) : list A :=
  match l with
  | [] => []
  | x :: l' =>
      if existsb (has_key (by_ x)) l' then groupby_tail1 l'
      else x :: groupby_tail1 l'
  end.
End FrameOps.

(** [sort_values] on a single column, with the default [kind="quicksort"]. *)
Definition sort_values_quick {pd : Pandas} {A : Type} (leb : A -> A -> bool) (l : list A)
  : list A :=
  take (argsort leb l) l.

Definition sum_bool (l : list bool) : nat := List.length (filter (fun b => b) l).

(** Ascending order of a datetime column, NaT last. *)
Definition ts_leb (a b : option Z) : bool :=
  match a, b with
  | Some x, Some y => (x <=? y)%Z
  | Some _, None => true
  | None, Some _ => false
  | None, None => true
  end.

Definition ts_eqb (a b : option Z) : bool :=
  match a, b with
  | Some x, Some y => (x =? y)%Z
  | None, None => true
  | _, _ => false
  end.

(** Order of [sort_values(["platform", "song_id", "timestamp"])]. *)
Definition row_leb (a b : Row) : bool :=
  match String.compare (platform a) (platform b) with
  | Lt => true
  | Gt => false
  | Eq =>
      match String.compare (song_id a) (song_id b) with
      | Lt => true
      | Gt => false
      | Eq => ts_leb (timestamp a) (timestamp b)
      end
  end.

Definition key_leb {pd : Pandas} (a b : Row) : bool := String.leb (key a) (key b).

Definition notna_ts (r : Row) : bool :=
  match timestamp r with Some _ => true | None => false end.

(** ** transform.normalize *)

(** The frame after the duplicate-key step (transform.py, line 90). *)
Definition dedup {pd : Pandas} (df : list Row) : list Row :=
  groupby_tail1 key (sort_values_quick key_leb df).

(** [normalize] from the key column on (transform.py, lines 82-105), with the
    number of rows it logs as removed for a bad timestamp. *)
Definition normalize_frame {pd : Pandas} (df : list Row) : list Row * nat * nat :=
  let dup_counts := sum_bool (duplicated key df) in
  let df := dedup df in
  let df := sort_values row_leb df in
  let before := List.length df in
  let df := filter notna_ts df in
  let removed := before - List.length df in
  (df, dup_counts, removed).

Definition normalize_logged {pd : Pandas} (df_raw : list RawRecord)
  : option (list Row * nat * nat) :=
  match df_raw with
  | [] => Some ([], 0, 0)
  | _ :: _ =>
      match _ensure_columns df_raw with
      | None => None
      | Some df => Some (normalize_frame (_build_timestamp df))
      end
  end.

Definition normalize {pd : Pandas} (df_raw : list RawRecord) : option (list Row * nat) :=
  match normalize_logged df_raw with
  | Some (df, dup_counts, _) => Some (df, dup_counts)
  | None => None
  end.

(** ** metrics.add_metrics *)

Record MetricRow : Type := mkMetric {
  row :> Row;
  delta_plays : float64;
  delta_listeners : float64;
  delta_minutes : float64;
  (** [None] is [pd.NA], the value the rate columns are created with. *)
  rate_plays_per_min : option float64;
  rate_listeners_per_min : option float64;
  is_anomaly_negative_diff : bool
}.

Definition same_group (a b : Row) : bool :=
  (String.eqb (platform a) (platform b) && String.eqb (song_id a) (song_id b))%bool.

(** [groupby(...)[col].diff()] on a float column, given the previous row of the group. *)
Definition diff_float (col : Row -> float64) (r : Row) (prev : option Row) : float64 :=
  match prev with
  | Some p => fsub (col r) (col p)
  | None => NaN
  end.

Definition ns_per_minute : Z := 60 * 1000000000.

(** [groupby(...)["timestamp"].diff().dt.total_seconds().div(60.0)]. *)
Definition diff_minutes (r : Row) (prev : option Row) : float64 :=
  match prev with
  | Some p =>
      match timestamp r, timestamp p with
      | Some a, Some b => Finite (Qred (inject_Z (a - b) / inject_Z ns_per_minute))
      | _, _ => NaN
      end
  | None => NaN
  end.

(** A rate column: [pd.NA], overwritten where [valid_time] holds. *)
Definition rate_per_min (valid_time : bool) (delta dm : float64) : option float64 :=
  if valid_time then Some (fdiv delta dm) else None.

Definition metric_row (r : Row) (prev : option Row) : MetricRow :=
  let dp := diff_float total_plays r prev in
  let dl := diff_float total_listeners r prev in
  let dm := diff_minutes r prev in
  let valid_time := fgt0 dm in
  {| row := r;
     delta_plays := dp;
     delta_listeners := dl;
     delta_minutes := dm;
     rate_plays_per_min := rate_per_min valid_time dp dm;
     rate_listeners_per_min := rate_per_min valid_time dl dm;
     is_anomaly_negative_diff := (flt0 dp || flt0 dl)%bool |}.

(** The derived columns of a frame; [seen] holds the rows above, nearest first,
    so [find] yields the previous row of the same group. *)
Fixpoint metric_columns (seen : list Row) (df : list Row) : list MetricRow :=
  match df with
  | [] => []
  | r :: df' => metric_row r (find (same_group r) seen) :: metric_columns (r :: seen) df'
  end.

Definition add_metrics (df : list Row) : list MetricRow * nat :=
  match df with
  | [] => ([], 0)
  | _ :: _ =>
      let df := sort_values row_leb df in
      let out := metric_columns [] df in
      (out, sum_bool (map is_anomaly_negative_diff out))
  end.

(** ** report.build_summary_table *)

Record SummaryRecord : Type := mkSummary {
  summary_platform : string;
  summary_song_id : string;
  summary_song_name : string;
  summary_artist_name : string;
  first_timestamp : option Z;
  last_timestamp : option Z;
  first_total_plays : float64;
  last_total_plays : float64;
  net_plays : float64;
  first_total_listeners : float64;
  last_total_listeners : float64;
  net_listeners : float64;
  avg_rate_plays_per_min : float64;
  avg_rate_listeners_per_min : float64;
  num_points : nat;
  num_anomalies_negative_diff : nat
}.

Definition group_of (r : Row) : string * string := (platform r, song_id r).

Definition group_eqb (g h : string * string) : bool :=
  (String.eqb (fst g) (fst h) && String.eqb (snd g) (snd h))%bool.

Definition group_leb (g h : string * string) : bool :=
  match String.compare (fst g) (fst h) with
  | Lt => true
  | Gt => false
  | Eq => String.leb (snd g) (snd h)
  end.

Fixpoint unique (l : list (string * string)) : list (string * string) :=
  match l with
  | [] => []
  | g :: l' => if existsb (group_eqb g) l' then unique l' else g :: unique l'
  end.

(** The group keys [df.groupby(["platform", "song_id"])] iterates over, in its order. *)
Definition group_keys (df : list MetricRow) : list (string * string) :=
  sort_values group_leb (unique (map (fun m : MetricRow => group_of m) df)).

Definition in_group (g : string * string) (m : MetricRow) : bool :=
  group_eqb (group_of m) g.

Definition metric_ts_leb (a b : MetricRow) : bool := ts_leb (timestamp a) (timestamp b).

(** [col.dropna()] on a rate column: neither [pd.NA] nor NaN. *)
Definition dropna (l : list (option float64)) : list float64 :=
  flat_map (fun c => match c with
                     | Some x => if notna x then [x] else []
                     | None => []
                     end) l.

Definition fsum (l : list float64) : float64 := fold_left fadd l (Finite 0).

(** [Series.mean()]: NaN on an empty series. *)
Definition mean (l : list float64) : float64 :=
  match l with
  | [] => NaN
  | _ :: _ => fdiv (fsum l) (Finite (inject_Z (Z.of_nat (List.length l))))
  end.

(** Python's [a or b] on strings: the empty string is falsy. *)
Definition or_str (a b : string) : string :=
  if String.eqb a "" then b else a.

Definition summary_of (g : string * string) (first last : MetricRow) (rows : list MetricRow)
  : SummaryRecord :=
  {| summary_platform := fst g;
     summary_song_id := snd g;
     summary_song_name := or_str (song_name last) (or_str (song_name first) "");
     summary_artist_name := or_str (artist_name last) (or_str (artist_name first) "");
     first_timestamp := timestamp first;
     last_timestamp := timestamp last;
     first_total_plays := total_plays first;
     last_total_plays := total_plays last;
     net_plays := fsub (or0 (total_plays last)) (or0 (total_plays first));
     first_total_listeners := total_listeners first;
     last_total_listeners := total_listeners last;
     net_listeners := fsub (or0 (total_listeners last)) (or0 (total_listeners first));
     avg_rate_plays_per_min := mean (dropna (map rate_plays_per_min rows));
     avg_rate_listeners_per_min := mean (dropna (map rate_listeners_per_min rows));
     num_points := List.length rows;
     num_anomalies_negative_diff := sum_bool (map is_anomaly_negative_diff rows) |}.

(** One pass of the loop body for the group [g]; a group is never empty. *)
Definition summarize_group {pd : Pandas} (df : list MetricRow) (g : string * string)
  : option SummaryRecord :=
  let rows := sort_values_quick metric_ts_leb (filter (in_group g) df) in
  match rows with
  | [] => None
  | first :: _ => Some (summary_of g first (last rows first) rows)
  end.

(** [d.setdefault(k, 0); d[k] += n] on an insertion-ordered dict. *)
Fixpoint dict_add (k : string) (n : nat) (d : list (string * nat)) : list (string * nat) :=
  match d with
  | [] => [(k, n)]
  | (k', v) :: d' =>
      if String.eqb k' k then (k', v + n) :: d' else (k', v) :: dict_add k n d'
  end.

Definition build_summary_table {pd : Pandas} (df : list MetricRow)
  : list SummaryRecord * list (string * nat) :=
  match df with
  | [] => ([], [])
  | _ :: _ =>
      fold_left
        (fun acc g =>
           match summarize_group df g with
           | Some s =>
               (fst acc ++ [s],
                dict_add (fst g) (num_anomalies_negative_diff s) (snd acc))
           | None => acc
           end)
        (group_keys df) ([], [])
  end.

(** ** main.cmd_render: the frames it computes

    What [cmd_render] computes between loading the input and drawing and
    writing: the normalised frame, the optional filters, the metrics and the
    summary.  Charts, reports and CSV files are effects on the file system
    and are left out. *)

(** [df_norm[df_norm[col] == value]] under [if value:]: neither [None] nor
    the empty string filters. *)
Definition filter_column (col : Row -> string) (value : option string) (df : list Row)
  : list Row :=
  match value with
  | Some v => if String.eqb v "" then df else filter (fun r => String.eqb (col r) v) df
  | None => df
  end.

Inductive Rendering : Type :=
| NoInput
| NothingLeft (dup_count : nat)
| Tables (dup_count : nat) (df_metrics : list MetricRow) (num_anomalies : nat)
         (df_summary : list SummaryRecord) (anomalies_per_platform : list (string * nat)).

Definition cmd_render {pd : Pandas} (df_raw : list RawRecord)
    (platform_filter song_filter : option string) : option Rendering :=
  match df_raw with
  | [] => Some NoInput
  | _ :: _ =>
      match normalize df_raw with
      | None => None
      | Some (df_norm, dup_count) =>
          let df_norm := filter_column (fun r => platform r) platform_filter df_norm in
          let df_norm := filter_column (fun r => song_id r) song_filter df_norm in
          match df_norm with
          | [] => Some (NothingLeft dup_count)
          | _ :: _ =>
              let (df_metrics, num_anomalies) := add_metrics df_norm in
              let (df_summary, anomalies_per_platform) := build_summary_table df_metrics in
              Some (Tables dup_count df_metrics num_anomalies df_summary
                           anomalies_per_platform)
          end
      end
  end.

(** ** A reading of the pandas interface

    The functions of [Iso] read a column of timestamps the way
    [pd.to_datetime] does on the formats they know: [YYYY-MM-DD HH:MM] (what
    [ts_str] produces from an ISO date), [MM/DD/YYYY HH:MM] and
    [DD/MM/YYYY HH:MM]; the format is guessed from the first string of the
    column and applied to all of it, and a column whose first string gives
    no format is read string by string.  They print a timestamp as pandas
    does ([YYYY-MM-DD HH:MM:SS]), read decimal integers and [inf]/[-inf] as
    numbers, and sort positions as numpy's quicksort does: median of three,
    the pivot parked next to the right end, a partition by two scans that
    stop on equal cells, and insertion sort on ranges of at most 16.  The
    concrete examples below run on this reading. *)

Module Iso.

Definition digit (c : ascii) : option Z :=
  let n := Z.of_nat (nat_of_ascii c) in
  if ((48 <=? n) && (n <=? 57))%bool%Z then Some (n - 48)%Z else None.

Fixpoint number_from (acc : Z) (l : list ascii) : option Z :=
  match l with
  | [] => Some acc
  | c :: l' =>
      match digit c with
      | Some d => number_from (10 * acc + d)%Z l'
      | None => None
      end
  end.

Definition number (l : list ascii) : option Z :=
  match l with
  | [] => None
  | _ :: _ => number_from 0%Z l
  end.

Definition is_leap (y : Z) : bool :=
  ((y mod 4 =? 0) && (negb (y mod 100 =? 0) || (y mod 400 =? 0)))%bool%Z.

Definition days_in_month (y m : Z) : Z :=
  (if m =? 2 then (if is_leap y then 29 else 28)
   else if (m =? 4) || (m =? 6) || (m =? 9) || (m =? 11) then 30
   else 31)%bool%Z.

(** Days since 1970-01-01 of a proleptic Gregorian date. *)
Definition days_from_civil (y m d : Z) : Z :=
  (let y := if m <=? 2 then y - 1 else y in
   let era := y / 400 in
   let yoe := y - era * 400 in
   let doy := (153 * (if 2 <? m then m - 3 else m + 9) + 2) / 5 + d - 1 in
   let doe := yoe * 365 + yoe / 4 - yoe / 100 + doy in
   era * 146097 + doe - 719468)%Z.

Definition civil_from_days (z : Z) : Z * Z * Z :=
  (let z := z + 719468 in
   let era := z / 146097 in
   let doe := z - era * 146097 in
   let yoe := (doe - doe / 1460 + doe / 36524 - doe / 146096) / 365 in
   let doy := doe - (365 * yoe + yoe / 4 - yoe / 100) in
   let mp := (5 * doy + 2) / 153 in
   let d := doy - (153 * mp + 2) / 5 + 1 in
   let m := if mp <? 10 then mp + 3 else mp - 9 in
   let y := yoe + era * 400 + (if m <=? 2 then 1 else 0) in
   (y, m, d))%Z.

Definition ns_per_second : Z := 1000000000.

Inductive date_format : Type := IsoFormat | MonthFirst | DayFirst.

Definition timestamp_of (y m d h n : Z) : option Z :=
  if ((1 <=? m) && (m <=? 12) && (1 <=? d) && (d <=? days_in_month y m)
      && (h <=? 23) && (n <=? 59))%bool%Z
  then Some ((((days_from_civil y m d * 24 + h) * 60 + n) * 60) * ns_per_second)%Z
  else None.

(** [strptime] with one of the three formats. *)
Definition parse_with (f : date_format) (s : string) : option Z :=
  match f, list_ascii_of_string s with
  | IsoFormat, [y1; y2; y3; y4; s1; m1; m2; s2; d1; d2; s3; h1; h2; s4; n1; n2] =>
      if (Ascii.eqb s1 "-" && Ascii.eqb s2 "-" && Ascii.eqb s3 " " && Ascii.eqb s4 ":")%bool
      then
        match number [y1; y2; y3; y4], number [m1; m2], number [d1; d2],
              number [h1; h2], number [n1; n2] with
        | Some y, Some m, Some d, Some h, Some n => timestamp_of y m d h n
        | _, _, _, _, _ => None
        end
      else None
  | (MonthFirst | DayFirst), [a1; a2; s1; b1; b2; s2; y1; y2; y3; y4; s3; h1; h2; s4; n1; n2] =>
      if (Ascii.eqb s1 "/" && Ascii.eqb s2 "/" && Ascii.eqb s3 " " && Ascii.eqb s4 ":")%bool
      then
        match number [a1; a2], number [b1; b2], number [y1; y2; y3; y4],
              number [h1; h2], number [n1; n2] with
        | Some a, Some b, Some y, Some h, Some n =>
            match f with
            | DayFirst => timestamp_of y b a h n
            | _ => timestamp_of y a b h n
            end
        | _, _, _, _, _ => None
        end
      else None
  | _, _ => None
  end.

Definition parses (f : date_format) (s : string) : bool :=
  match parse_with f s with Some _ => true | None => false end.

(** The format guessed from one string: month before day when both read. *)
Definition guess_format (s : string) : option date_format :=
  if parses IsoFormat s then Some IsoFormat
  else if parses MonthFirst s then Some MonthFirst
  else if parses DayFirst s then Some DayFirst
  else None.

Definition parse_any (s : string) : option Z :=
  match guess_format s with
  | Some f => parse_with f s
  | None => None
  end.

Definition parse_column (col : list string) : list (option Z) :=
  match col with
  | [] => []
  | s :: _ =>
      match guess_format s with
      | Some f => map (parse_with f) col
      | None => map parse_any col
      end
  end.

Definition print_datetime (ns : Z) : string :=
  let secs := (ns / ns_per_second)%Z in
  let days := (secs / 86400)%Z in
  let rest := (secs mod 86400)%Z in
  let '(y, m, d) := civil_from_days days in
  zfill 4 (str_int y) ++ "-" ++ zfill 2 (str_int m) ++ "-" ++ zfill 2 (str_int d)
  ++ " " ++ zfill 2 (str_int (rest / 3600)) ++ ":" ++ zfill 2 (str_int ((rest / 60) mod 60))
  ++ ":" ++ zfill 2 (str_int (rest mod 60)).

Definition parse_numeric (s : string) : float64 :=
  if String.eqb s "inf" then Inf false
  else if String.eqb s "-inf" then Inf true
  else match list_ascii_of_string s with
       | c :: l =>
           if Ascii.eqb c "-"
           then match number l with
                | Some n => Finite (inject_Z (- n))
                | None => NaN
                end
           else match number (c :: l) with
                | Some n => Finite (inject_Z n)
                | None => NaN
                end
       | [] => NaN
       end.

(** *** numpy's quicksort on positions *)

Section Quicksort.
Context {A : Type}.
Variable leb : A -> A -> bool.
Variable col : list A.

(** The cell at the first position is smaller than the cell at the second. *)
Definition less (i j : nat) : bool :=
  match nth_error col i, nth_error col j with
  | Some x, Some y => negb (leb y x)
  | _, _ => false
  end.

Definition load (a : list nat) (i : nat) : nat := nth i a 0.

Fixpoint store (a : list nat) (i x : nat) : list nat :=
  match a, i with
  | [], _ => []
  | _ :: a', 0 => x :: a'
  | y :: a', S i' => y :: store a' i' x
  end.

Definition swap (a : list nat) (i j : nat) : list nat :=
  store (store a i (load a j)) j (load a i).

Definition swap_if_less (a : list nat) (i j : nat) : list nat :=
  if less (load a i) (load a j) then swap a i j else a.

(** Insertion sort as numpy writes it: the new position moves left past
    the positions of greater cells.  The sorted part is kept reversed. *)
Fixpoint shift_in (vi : nat) (sorted_rev : list nat) : list nat :=
  match sorted_rev with
  | [] => [vi]
  | k :: rest => if less vi k then k :: shift_in vi rest else vi :: sorted_rev
  end.

Definition insertion_sort (a : list nat) : list nat :=
  rev (fold_left (fun sorted_rev vi => shift_in vi sorted_rev) a []).

(** [do ++pi while a[pi] < pivot and pi < pj]. *)
Fixpoint advance (fuel : nat) (a : list nat) (vp pi pj : nat) : nat :=
  match fuel with
  | 0 => S pi
  | S fuel' =>
      if (less (load a (S pi)) vp && (S pi <? pj))%bool
      then advance fuel' a vp (S pi) pj
      else S pi
  end.

(** [do --pj while pivot < a[pj] and pi < pj]. *)
Fixpoint retreat (fuel : nat) (a : list nat) (vp pi pj : nat) : nat :=
  match fuel with
  | 0 => pj - 1
  | S fuel' =>
      if (less vp (load a (pj - 1)) && (pi <? pj - 1))%bool
      then retreat fuel' a vp pi (pj - 1)
      else pj - 1
  end.

Fixpoint partition_loop (fuel : nat) (a : list nat) (vp pi pj : nat) : list nat * nat :=
  let pi := advance (List.length a) a vp pi pj in
  let pj := retreat (List.length a) a vp pi pj in
  if pj <=? pi then (a, pi)
  else match fuel with
       | 0 => (a, pi)
       | S fuel' => partition_loop fuel' (swap a pi pj) vp pi pj
       end.

(** One partition of a range of positions: the range after it and the
    place of the pivot. *)
Definition partition (a : list nat) : list nat * nat :=
  let pr := List.length a - 1 in
  let pm := Nat.div2 pr in
  let a := swap_if_less a pm 0 in
  let a := swap_if_less a pr pm in
  let a := swap_if_less a pm 0 in
  let vp := load a pm in
  let a := swap a pm (pr - 1) in
  let (a, pi) := partition_loop (List.length a) a vp 0 (pr - 1) in
  (swap a pi (pr - 1), pi).

Fixpoint quicksort (fuel : nat) (a : list nat) : list nat :=
  match fuel with
  | 0 => insertion_sort a
  | S fuel' =>
      if List.length a <=? 16 then insertion_sort a
      else
        let (a, pi) := partition a in
        quicksort fuel' (firstn pi a) ++ load a pi :: quicksort fuel' (skipn (S pi) a)
  end.

Definition npy_argsort : list nat :=
  quicksort (List.length col) (seq 0 (List.length col)).

(** The positions are each position of the column once. *)
Definition each_position_once (indexer : list nat) : bool :=
  ((List.length indexer =? List.length col)
   && forallb (fun i => existsb (Nat.eqb i) indexer) (seq 0 (List.length col)))%bool.

Fixpoint ascending (l : list A) : bool :=
  match l with
  | x :: (y :: _) as rest => (leb x y && ascending rest)%bool
  | _ => true
  end.

(** The positions sorted by their cells, equal cells in column order. *)
Definition stable_argsort : list nat :=
  map fst (sort_values (fun p q : nat * A => leb (snd p) (snd q))
                       (combine (seq 0 (List.length col)) col)).

(** The positions the quicksort leaves, checked: were they not the positions
    of the column in ascending order, the positions in stable order are the
    answer (numpy leaves the quicksort for a heap sort when the recursion
    gets too deep, which is not modelled). *)
Definition argsort : list nat :=
  if (each_position_once npy_argsort && ascending (take npy_argsort col))%bool
  then npy_argsort
  else stable_argsort.

End Quicksort.

End Iso.

(** ** Vocabulary of the statements *)

(** The last row of a frame, as a frame of at most one row. *)
Fixpoint last_row {A : Type} (l : list A) : list A :=
  match l with
  | [] => []
  | x :: l' => match l' with [] => [x] | _ :: _ => last_row l' end
  end.

(** The keys of the rows [duplicated] does not flag. *)
Fixpoint first_keys {A : Type} (by_ : A -> string) (seen : list string) (l : list A)
  : list string :=
  match l with
  | [] => []
  | x :: l' =>
      if existsb (String.eqb (by_ x)) seen then first_keys by_ (by_ x :: seen) l'
      else by_ x :: first_keys by_ (by_ x :: seen) l'
  end.

Definition row_le (a b : Row) : Prop := row_leb a b = true.

Definition isna_ts (r : Row) : bool := negb (notna_ts r).

(** The hour and the minute are int64 values. *)
Definition int64_time (c : Columns) : Prop :=
  in_int64 (hour c) = true /\ in_int64 (minute c) = true.

(** A timestamp strictly before another; NaT is before nothing and after nothing. *)
Definition ts_lt (a b : option Z) : Prop :=
  match a, b with
  | Some x, Some y => (x < y)%Z
  | _, _ => False
  end.

(** A normalised row read back as input: every column holds its typed value. *)
Definition as_raw (r : Row) : RawRecord :=
  {| raw_platform := Some (platform r);
     raw_song_id := Some (song_id r);
     raw_song_name := Some (song_name r);
     raw_artist_name := Some (artist_name r);
     raw_date := Some (date r);
     raw_hour := CNum (Finite (inject_Z (hour r)));
     raw_minute := CNum (Finite (inject_Z (minute r)));
     raw_total_plays := CNum (total_plays r);
     raw_total_listeners := CNum (total_listeners r) |}.

(** The hour or minute cell coerces to a finite number (or to NaN, which
    [fillna(0)] replaces). *)
Definition finite_cell {pd : Pandas} (c : cell) : Prop :=
  match to_numeric c with Inf _ => False | _ => True end.

Definition finite_time {pd : Pandas} (r : RawRecord) : Prop :=
  finite_cell (raw_hour r) /\ finite_cell (raw_minute r).

(** A rate cell holds a value: neither [pd.NA] nor NaN. *)
Definition rate_present (c : option float64) : bool :=
  match c with Some x => notna x | None => false end.

(** A present, strictly negative value. *)
Definition negative (x : float64) : Prop :=
  match x with
  | Finite q => (q < 0)%Q
  | Inf s => s = true
  | NaN => False
  end.

Definition positive (x : float64) : Prop :=
  match x with
  | Finite q => (0 < q)%Q
  | Inf s => s = false
  | NaN => False
  end.


(** The row just above, when it belongs to the same song. *)
Definition adjacent_prev (above : option Row) (r : Row) : option Row :=
  match above with
  | Some p => if same_group r p then Some p else None
  | None => None
  end.

(** The derived columns, each row differenced against the row just above. *)
Fixpoint adjacent_columns (above : option Row) (df : list Row) : list MetricRow :=
  match df with
  | [] => []
  | r :: df' => metric_row r (adjacent_prev above r) :: adjacent_columns (Some r) df'
  end.

(** The rows of one group as [build_summary_table] reads them. *)
Definition group_rows {pd : Pandas} (df : list MetricRow) (g : string * string)
  : list MetricRow :=
  sort_values_quick metric_ts_leb (filter (in_group g) df).

(** The rows the loop body appends for the group [g]. *)
Definition summary_list {pd : Pandas} (df : list MetricRow) (g : string * string)
  : list SummaryRecord :=
  match summarize_group df g with Some s => [s] | None => [] end.

Definition summary_group (s : SummaryRecord) : string * string :=
  (summary_platform s, summary_song_id s).

(** The finite values of a list of floats. *)
Definition finite_values (l : list float64) : list Q :=
  flat_map (fun x => match x with Finite q => [q] | _ => [] end) l.

Definition Qsum (l : list Q) : Q := fold_right Qplus 0%Q l.

(** A row of the song [(p, s)] whose timestamp did not parse. *)
Definition bad_in_group (p s : string) (r : Row) : bool :=
  (String.eqb (platform r) p && String.eqb (song_id r) s && isna_ts r)%bool.

(** The key such a row gets. *)
Definition bad_key (p s : string) : string := p ++ "::" ++ s ++ "::NaT".

(** [d.get(k)] on the dict [build_summary_table] returns. *)
Fixpoint dict_get (k : string) (d : list (string * nat)) : option nat :=
  match d with
  | [] => None
  | (k', v) :: d' => if String.eqb k' k then Some v else dict_get k d'
  end.

Definition group_le (g h : string * string) : Prop := group_leb g h = true.

Definition on_platform (p : string) (m : MetricRow) : bool := String.eqb (platform m) p.

(** The flagged rows of one song. *)
Definition flagged_in (df : list MetricRow) (g : string * string) : nat :=
  List.length (filter (fun m => (is_anomaly_negative_diff m && in_group g m)%bool) df).

(** A missing dict entry read as zero. *)
Definition or_zero (v : option nat) : nat :=
  match v with Some n => n | None => 0 end.

(** ** Sample frames *)

Module Sample.

Definition num (z : Z) : cell := CNum (Finite (inject_Z z)).

Definition snapshot (p s d : string) (h m plays listeners : cell) : RawRecord :=
  {| raw_platform := Some p; raw_song_id := Some s;
     raw_song_name := Some "A"; raw_artist_name := Some "AA";
     raw_date := Some d; raw_hour := h; raw_minute := m;
     raw_total_plays := plays; raw_total_listeners := listeners |}.

(** Two snapshots of the same minute (tests/test_transform.py). *)
Definition same_minute : list RawRecord :=
  [ snapshot "GENIE" "1" "2025-12-17" (num 10) (num 0) (num 100) (num 50);
    snapshot "GENIE" "1" "2025-12-17" (num 10) (num 0) (num 100) (num 50) ].

(** Three snapshots, ten minutes apart. *)
Definition three_points : list RawRecord :=
  [ snapshot "GENIE" "1" "2025-12-17" (num 10) (num 0) (num 100) (num 50);
    snapshot "GENIE" "1" "2025-12-17" (num 10) (num 10) (num 120) (num 60);
    snapshot "GENIE" "1" "2025-12-17" (num 10) (num 20) (num 150) (num 70) ].

(** The first snapshot lacks [total_plays]. *)
Definition missing_first_plays : list RawRecord :=
  [ snapshot "GENIE" "1" "2025-12-17" (num 10) (num 0) CNone (num 50);
    snapshot "GENIE" "1" "2025-12-17" (num 10) (num 10) (num 150) (num 60) ].

(** One snapshot whose date is no date. *)
Definition bad_date : list RawRecord :=
  [ snapshot "GENIE" "1" "not-a-date" (num 10) (num 0) (num 100) (num 50) ].

(** Three snapshots of one song with unreadable dates, and a good one. *)
Definition bad_dates : list RawRecord :=
  [ snapshot "GENIE" "1" "not-a-date" (num 10) (num 0) (num 100) (num 50);
    snapshot "GENIE" "1" "2025-12-17" (num 10) (num 0) (num 110) (num 50);
    snapshot "GENIE" "1" "17.12.2025?" (num 11) (num 0) (num 120) (num 50);
    snapshot "GENIE" "1" "" (num 12) (num 0) (num 130) (num 50) ].

(** The hour is the string [inf]. *)
Definition infinite_hour : list RawRecord :=
  [ snapshot "GENIE" "1" "2025-12-17" (CStr "inf") (num 0) (num 100) (num 50) ].

(** Thirty-two snapshots of one minute, with plays 100 to 131 in input
    order, and one snapshot ten minutes later. *)
Definition thirty_two_and_one : list RawRecord :=
  map (fun i => snapshot "GENIE" "1" "2025-12-17" (num 10) (num 0)
                         (num (100 + Z.of_nat i)) (num 50))
      (seq 0 32)
  ++ [ snapshot "GENIE" "1" "2025-12-17" (num 10) (num 10) (num 200) (num 50) ].

(** Sixteen snapshots of one minute, with plays 100 to 115 in input order,
    and one snapshot ten minutes later. *)
Definition sixteen_and_one : list RawRecord :=
  map (fun i => snapshot "GENIE" "1" "2025-12-17" (num 10) (num 0)
                         (num (100 + Z.of_nat i)) (num 50))
      (seq 0 16)
  ++ [ snapshot "GENIE" "1" "2025-12-17" (num 10) (num 10) (num 200) (num 50) ].

(** Two snapshots with the day before the month, the later one first. *)
Definition day_first : list RawRecord :=
  [ snapshot "GENIE" "1" "13/01/2025" (num 10) (num 0) (num 120) (num 60);
    snapshot "GENIE" "1" "02/01/2025" (num 10) (num 0) (num 100) (num 50) ].

(** The frame with its timestamps, as the duplicate-key step receives it. *)
Definition with_timestamps {pd : Pandas} (df_raw : list RawRecord) : list Row :=
  match _ensure_columns df_raw with
  | Some df => _build_timestamp df
  | None => []
  end.

(** The pipeline up to the metrics and the summaries. *)
Definition normalized {pd : Pandas} (df_raw : list RawRecord) : list Row :=
  match normalize df_raw with
  | Some (df, _) => df
  | None => []
  end.

Definition metrics_of {pd : Pandas} (df_raw : list RawRecord) : list MetricRow :=
  fst (add_metrics (normalized df_raw)).

Definition summaries_of {pd : Pandas} (df_raw : list RawRecord) : list SummaryRecord :=
  fst (build_summary_table (metrics_of df_raw)).

End Sample.

(** * Properties *)

(** ** The order on strings *)

Lemma ascii_compare_refl (c : ascii) : Ascii.compare c c = Eq.
Proof. unfold Ascii.compare. apply N.compare_refl. Qed.

Lemma ascii_compare_lt_trans (a b c : ascii) :
  Ascii.compare a b = Lt -> Ascii.compare b c = Lt -> Ascii.compare a c = Lt.
Proof.
  unfold Ascii.compare. rewrite !N.compare_lt_iff. apply N.lt_trans.
Qed.

Lemma string_compare_refl (s : string) : String.compare s s = Eq.
Proof.
  induction s as [|c s IH]; simpl; [reflexivity|].
  now rewrite ascii_compare_refl.
Qed.

Lemma string_compare_eq (s t : string) : String.compare s t = Eq <-> s = t.
Proof.
  split; [apply String.compare_eq_iff|]. intros ->. apply string_compare_refl.
Qed.

Lemma string_compare_lt_trans (s t u : string) :
  String.compare s t = Lt -> String.compare t u = Lt -> String.compare s u = Lt.
Proof.
  revert t u. induction s as [|a s IH]; intros [|b t] [|c u]; simpl; try congruence.
  destruct (Ascii.compare a b) eqn:Hab; try discriminate;
    destruct (Ascii.compare b c) eqn:Hbc; try discriminate; intros H1 H2.
  - apply Ascii.compare_eq_iff in Hab, Hbc. subst.
    rewrite ascii_compare_refl. eauto.
  - apply Ascii.compare_eq_iff in Hab. subst. now rewrite Hbc.
  - apply Ascii.compare_eq_iff in Hbc. subst. now rewrite Hab.
  - now rewrite (ascii_compare_lt_trans _ _ _ Hab Hbc).
Qed.

Lemma string_compare_gt (s t : string) :
  String.compare s t = Gt <-> String.compare t s = Lt.
Proof.
  rewrite (String.compare_antisym t s).
  destruct (String.compare s t); simpl; split; congruence.
Qed.

Lemma string_leb_refl (s : string) : String.leb s s = true.
Proof. unfold String.leb. now rewrite string_compare_refl. Qed.

Lemma string_leb_trans (s t u : string) :
  String.leb s t = true -> String.leb t u = true -> String.leb s u = true.
Proof.
  unfold String.leb.
  destruct (String.compare s t) eqn:Hst; try discriminate;
    destruct (String.compare t u) eqn:Htu; try discriminate; intros _ _.
  - apply string_compare_eq in Hst, Htu. subst. now rewrite string_compare_refl.
  - apply string_compare_eq in Hst. subst. now rewrite Htu.
  - apply string_compare_eq in Htu. subst. now rewrite Hst.
  - now rewrite (string_compare_lt_trans _ _ _ Hst Htu).
Qed.

(** ** Frames: sorting, filtering, counting *)

Section FrameFacts.
Context {A : Type}.

Lemma filter_length_le (p : A -> bool) (l : list A) :
  List.length (filter p l) <= List.length l.
Proof.
  induction l as [|x l IH]; simpl; [lia|]. destruct (p x); simpl; lia.
Qed.

Lemma filter_split_length (p : A -> bool) (l : list A) :
  List.length (filter p l) + List.length (filter (fun x => negb (p x)) l) = List.length l.
Proof.
  induction l as [|x l IH]; simpl; [reflexivity|]. destruct (p x); simpl; lia.
Qed.

Lemma filter_comm (p q : A -> bool) (l : list A) :
  filter p (filter q l) = filter q (filter p l).
Proof.
  induction l as [|x l IH]; simpl; [reflexivity|].
  destruct (p x) eqn:Hp, (q x) eqn:Hq; simpl; rewrite ?Hp, ?Hq, IH; reflexivity.
Qed.

Lemma filter_all (p : A -> bool) (l : list A) :
  Forall (fun x => p x = true) l -> filter p l = l.
Proof.
  induction 1 as [|x l Hx _ IH]; simpl; [reflexivity|]. now rewrite Hx, IH.
Qed.

Lemma filter_none (p : A -> bool) (l : list A) :
  Forall (fun x => p x = false) l -> filter p l = [].
Proof.
  induction 1 as [|x l Hx _ IH]; simpl; [reflexivity|]. now rewrite Hx.
Qed.

Lemma Permutation_filter_eq (p : A -> bool) (l l' : list A) :
  Permutation l l' -> Permutation (filter p l) (filter p l').
Proof.
  induction 1 as [|x l l' _ IH|x y l|l l' l'' _ IH1 _ IH2]; simpl.
  - constructor.
  - destruct (p x); [now constructor|assumption].
  - destruct (p x), (p y); try reflexivity; constructor.
  - now transitivity (filter p l').
Qed.

Lemma sum_bool_map (f : A -> bool) (l : list A) :
  sum_bool (map f l) = List.length (filter f l).
Proof.
  unfold sum_bool. induction l as [|x l IH]; simpl; [reflexivity|].
  destruct (f x); simpl; now rewrite IH.
Qed.

Lemma last_row_length (l : list A) : List.length (last_row l) <= 1.
Proof.
  induction l as [|x [|y l] IH]; simpl in *; lia.
Qed.

Lemma last_row_nil (l : list A) : last_row l = [] -> l = [].
Proof.
  induction l as [|x l IH]; [reflexivity|]. destruct l as [|y l]; [discriminate|].
  intros H. change (last_row (y :: l) = []) in H. apply IH in H. discriminate.
Qed.

Lemma last_row_cons (x : A) (l : list A) :
  l <> [] -> last_row (x :: l) = last_row l.
Proof. destruct l; [congruence|reflexivity]. Qed.

Lemma last_row_last (l : list A) (d : A) :
  l <> [] -> last_row l = [last l d].
Proof.
  induction l as [|x [|y l] IH]; intros Hne; [congruence|reflexivity|].
  change (last_row (y :: l) = [last (y :: l) d]). apply IH. discriminate.
Qed.

Lemma NoDup_map_injective {B : Type} (f : A -> B) (l : list A) (a b : A) :
  NoDup (map f l) -> In a l -> In b l -> f a = f b -> a = b.
Proof.
  induction l as [|x l IH]; simpl; [tauto|].
  intros Hnd [->|Ha] [->|Hb] Hf; inversion Hnd as [|? ? Hnotin Hnd']; subst.
  - reflexivity.
  - exfalso. apply Hnotin. rewrite Hf. now apply in_map.
  - exfalso. apply Hnotin. rewrite <- Hf. now apply in_map.
  - now apply IH.
Qed.

Lemma NoDup_map_nth_error {B : Type} (f : A -> B) (l : list A) (i j : nat) (a b : A) :
  NoDup (map f l) -> i < j ->
  nth_error l i = Some a -> nth_error l j = Some b -> f a <> f b.
Proof.
  intros Hnd Hij Ha Hb Hf.
  assert (Hi : i < List.length (map f l)).
  { rewrite length_map. apply nth_error_Some. congruence. }
  pose proof (proj1 (NoDup_nth_error (map f l)) Hnd i j Hi) as Heq.
  rewrite !nth_error_map, Ha, Hb in Heq. simpl in Heq.
  specialize (Heq (f_equal Some Hf)). lia.
Qed.

Section SortFacts.
Variable leb : A -> A -> bool.
Hypothesis leb_total : forall x y, leb x y = true \/ leb y x = true.
Hypothesis leb_trans : forall x y z, leb x y = true -> leb y z = true -> leb x z = true.

Let le (x y : A) : Prop := leb x y = true.

Lemma insert_sorted_perm (x : A) (l : list A) :
  Permutation (insert_sorted leb x l) (x :: l).
Proof.
  induction l as [|y l IH]; simpl; [reflexivity|].
  destruct (leb x y); [reflexivity|].
  rewrite IH. apply perm_swap.
Qed.

Lemma sort_values_perm (l : list A) : Permutation (sort_values leb l) l.
Proof.
  induction l as [|x l IH]; simpl; [reflexivity|].
  rewrite insert_sorted_perm. now constructor.
Qed.

Lemma sort_values_length (l : list A) :
  List.length (sort_values leb l) = List.length l.
Proof. apply Permutation_length, sort_values_perm. Qed.

Lemma sort_values_In (x : A) (l : list A) : In x (sort_values leb l) <-> In x l.
Proof.
  split; apply Permutation_in; [|symmetry]; apply sort_values_perm.
Qed.

Lemma insert_sorted_sorted (x : A) (l : list A) :
  StronglySorted le l -> StronglySorted le (insert_sorted leb x l).
Proof.
  induction 1 as [|y l Hs IH Hy]; simpl.
  - repeat constructor.
  - destruct (leb x y) eqn:Hxy.
    + constructor; [now constructor|].
      constructor; [exact Hxy|].
      eapply Forall_impl; [|exact Hy]. intros z Hz. exact (leb_trans _ _ _ Hxy Hz).
    + constructor; [exact IH|].
      assert (Hyx : le y x) by (destruct (leb_total x y); [congruence|assumption]).
      eapply Permutation_Forall; [symmetry; apply insert_sorted_perm|].
      now constructor.
Qed.

Lemma sort_values_sorted (l : list A) : StronglySorted le (sort_values leb l).
Proof.
  induction l as [|x l IH]; simpl; [constructor|]. now apply insert_sorted_sorted.
Qed.

(** Sorting a sorted frame leaves it as it is. *)
Lemma sort_values_id (l : list A) : StronglySorted le l -> sort_values leb l = l.
Proof.
  induction 1 as [|x l Hs IH Hx]; simpl; [reflexivity|].
  rewrite IH. destruct l as [|y l]; simpl; [reflexivity|].
  inversion Hx as [|? ? Hxy _]; subst. unfold le in Hxy. now rewrite Hxy.
Qed.

(** Stability: rows that the order does not separate keep their frame order. *)
Lemma insert_sorted_filter (p : A -> bool) (x : A) (l : list A) :
  (forall y, p x = true -> p y = true -> leb x y = true) ->
  filter p (insert_sorted leb x l) = filter p (x :: l).
Proof.
  intros Hp. induction l as [|y l IH]; simpl; [reflexivity|].
  destruct (leb x y) eqn:Hxy; simpl; [reflexivity|].
  simpl in IH. rewrite IH.
  destruct (p x) eqn:Hpx, (p y) eqn:Hpy; try reflexivity.
  rewrite (Hp y eq_refl Hpy) in Hxy. discriminate.
Qed.

Lemma sort_values_stable (p : A -> bool) (l : list A) :
  (forall x y, p x = true -> p y = true -> leb x y = true) ->
  filter p (sort_values leb l) = filter p l.
Proof.
  intros Hp. induction l as [|x l IH]; simpl; [reflexivity|].
  rewrite insert_sorted_filter by (intros y; apply Hp).
  simpl. now rewrite IH.
Qed.

Lemma sort_values_filter_length (p : A -> bool) (l : list A) :
  List.length (filter p (sort_values leb l)) = List.length (filter p l).
Proof. apply Permutation_length, Permutation_filter_eq, sort_values_perm. Qed.

End SortFacts.

Lemma StronglySorted_filter (R : A -> A -> Prop) (p : A -> bool) (l : list A) :
  StronglySorted R l -> StronglySorted R (filter p l).
Proof.
  induction 1 as [|x l Hs IH Hx]; simpl; [constructor|].
  destruct (p x); [|exact IH]. constructor; [exact IH|].
  rewrite Forall_forall in *. intros y Hy. apply Hx. now apply filter_In in Hy.
Qed.

Lemma StronglySorted_nth_error (R : A -> A -> Prop) (l : list A) (i j : nat) (a b : A) :
  StronglySorted R l -> i < j ->
  nth_error l i = Some a -> nth_error l j = Some b -> R a b.
Proof.
  intros Hs. revert i j. induction Hs as [|x l Hs IH Hx]; intros i j Hij Ha Hb.
  - destruct i; discriminate.
  - destruct j as [|j]; [lia|]. destruct i as [|i]; simpl in *.
    + injection Ha as <-. rewrite Forall_forall in Hx. apply Hx.
      eapply nth_error_In; eauto.
    + apply (IH i j); [lia|assumption..].
Qed.

(** Two sorted arrangements of the same rows coincide when the order tells
    the rows apart. *)
Lemma sorted_perm_unique (R : A -> A -> Prop) (l l' : list A) :
  (forall a b, In a l -> In b l -> R a b -> R b a -> a = b) ->
  StronglySorted R l -> StronglySorted R l' -> Permutation l l' -> l = l'.
Proof.
  intros Hanti Hs. revert l' Hanti.
  induction Hs as [|x l Hs IH Hx]; intros l' Hanti Hs' Hp.
  - now apply Permutation_nil in Hp.
  - destruct l' as [|y l']; [symmetry in Hp; now apply Permutation_nil in Hp|].
    inversion Hs' as [|? ? Hs'' Hy]; subst.
    assert (Hxy : x = y).
    { assert (Hin_y : In y (x :: l)) by (eapply Permutation_in; [symmetry; exact Hp|now left]).
      assert (Hin_x : In x (y :: l')) by (eapply Permutation_in; [exact Hp|now left]).
      destruct Hin_y as [->|Hin_y]; [reflexivity|].
      destruct Hin_x as [->|Hin_x]; [reflexivity|].
      rewrite Forall_forall in Hx, Hy.
      apply Hanti; [now left|now right|now apply Hx|now apply Hy]. }
    subst y. f_equal. apply IH; [|assumption|now apply Permutation_cons_inv in Hp].
    intros a b Ha Hb. apply Hanti; now right.
Qed.

End FrameFacts.

(** ** Sorting by one column *)

Section TakeFacts.
Context {A : Type}.

Lemma take_from (pre l : list A) :
  take (seq (List.length pre) (List.length l)) (pre ++ l) = l.
Proof.
  revert pre. induction l as [|x l IH]; intros pre; [reflexivity|].
  cbn [List.length seq]. unfold take. cbn [flat_map].
  rewrite nth_error_app2, Nat.sub_diag by lia. cbn [nth_error app]. f_equal.
  specialize (IH (pre ++ [x])).
  rewrite length_app, <- app_assoc, Nat.add_1_r in IH. exact IH.
Qed.

Lemma take_all (l : list A) : take (seq 0 (List.length l)) l = l.
Proof. exact (take_from [] l). Qed.

Lemma take_perm (indexer indexer' : list nat) (l : list A) :
  Permutation indexer indexer' -> Permutation (take indexer l) (take indexer' l).
Proof. intros H. unfold take. now apply Permutation_flat_map. Qed.

Lemma take_pairs (ps : list (nat * A)) (l : list A) :
  Forall (fun p => nth_error l (fst p) = Some (snd p)) ps ->
  take (map fst ps) l = map snd ps.
Proof.
  induction 1 as [|p ps Hp _ IH]; [reflexivity|].
  unfold take in *. cbn [map flat_map]. rewrite Hp, IH. reflexivity.
Qed.

Lemma combine_seq_positions (pre l : list A) :
  Forall (fun p => nth_error (pre ++ l) (fst p) = Some (snd p))
         (combine (seq (List.length pre) (List.length l)) l).
Proof.
  revert pre. induction l as [|x l IH]; intros pre; [constructor|].
  cbn [List.length seq combine]. constructor.
  - cbn [fst snd]. now rewrite nth_error_app2, Nat.sub_diag by lia.
  - specialize (IH (pre ++ [x])).
    rewrite length_app, <- app_assoc, Nat.add_1_r in IH. exact IH.
Qed.

Lemma combine_seq_fst (start : nat) (l : list A) :
  map fst (combine (seq start (List.length l)) l) = seq start (List.length l).
Proof.
  revert start. induction l as [|x l IH]; intros start; [reflexivity|].
  cbn [List.length seq combine map fst]. now rewrite IH.
Qed.

Lemma StronglySorted_map_snd (R : A -> A -> Prop) (ps : list (nat * A)) :
  StronglySorted (fun p q => R (snd p) (snd q)) ps -> StronglySorted R (map snd ps).
Proof.
  induction 1 as [|p ps _ IH Hp]; cbn [map]; constructor; [exact IH|].
  rewrite Forall_forall in *. intros y Hy.
  apply in_map_iff in Hy as (q & <- & Hq). now apply Hp.
Qed.

End TakeFacts.

Section QuickFacts.
Context {pd : Pandas} {A : Type}.
Variable leb : A -> A -> bool.

Lemma sort_values_quick_perm (l : list A) : Permutation (sort_values_quick leb l) l.
Proof.
  unfold sort_values_quick.
  rewrite (take_perm _ _ l (argsort_permutation A leb l)). now rewrite take_all.
Qed.

Lemma sort_values_quick_nil : sort_values_quick leb [] = [].
Proof. apply Permutation_nil. symmetry. apply sort_values_quick_perm. Qed.

Lemma sort_values_quick_length (l : list A) :
  List.length (sort_values_quick leb l) = List.length l.
Proof. apply Permutation_length, sort_values_quick_perm. Qed.

Lemma sort_values_quick_In (x : A) (l : list A) :
  In x (sort_values_quick leb l) <-> In x l.
Proof.
  split; apply Permutation_in; [|symmetry]; apply sort_values_quick_perm.
Qed.

Lemma sort_values_quick_filter_length (p : A -> bool) (l : list A) :
  List.length (filter p (sort_values_quick leb l)) = List.length (filter p l).
Proof. apply Permutation_length, Permutation_filter_eq, sort_values_quick_perm. Qed.

Hypothesis leb_total : forall x y, leb x y = true \/ leb y x = true.
Hypothesis leb_trans : forall x y z, leb x y = true -> leb y z = true -> leb x z = true.

Lemma sort_values_quick_sorted (l : list A) :
  StronglySorted (fun a b => leb a b = true) (sort_values_quick leb l).
Proof. now apply argsort_sorted. Qed.

End QuickFacts.

(** ** The reading of the interface keeps its laws *)

Section IsoLaws.
Context {A : Type}.
Variable leb : A -> A -> bool.
Variable col : list A.

Lemma each_position_once_perm (indexer : list nat) :
  Iso.each_position_once col indexer = true ->
  Permutation indexer (seq 0 (List.length col)).
Proof.
  unfold Iso.each_position_once. intros H.
  apply andb_true_iff in H as [Hlen Hall]. apply Nat.eqb_eq in Hlen.
  symmetry. apply NoDup_Permutation_bis; [apply seq_NoDup|rewrite length_seq; lia|].
  intros i Hi. rewrite forallb_forall in Hall. specialize (Hall i Hi).
  apply existsb_exists in Hall as (j & Hj & Hij). apply Nat.eqb_eq in Hij. now subst.
Qed.

Lemma ascending_sorted (l : list A) :
  Iso.ascending leb l = true -> Sorted (fun a b => leb a b = true) l.
Proof.
  induction l as [|x l IH]; [constructor|].
  destruct l as [|y l]; [repeat constructor|].
  cbn [Iso.ascending]. intros H. apply andb_true_iff in H as [Hxy Hl].
  constructor; [now apply IH|now constructor].
Qed.

Lemma stable_argsort_perm :
  Permutation (Iso.stable_argsort leb col) (seq 0 (List.length col)).
Proof.
  unfold Iso.stable_argsort. rewrite sort_values_perm. now rewrite combine_seq_fst.
Qed.

Lemma iso_argsort_permutation :
  Permutation (Iso.argsort leb col) (seq 0 (List.length col)).
Proof.
  unfold Iso.argsort.
  destruct (Iso.each_position_once col (Iso.npy_argsort leb col)) eqn:Hp; cbn [andb];
    [|apply stable_argsort_perm].
  destruct (Iso.ascending leb _); [|apply stable_argsort_perm].
  now apply each_position_once_perm.
Qed.

Hypothesis leb_total : forall x y, leb x y = true \/ leb y x = true.
Hypothesis leb_trans : forall x y z, leb x y = true -> leb y z = true -> leb x z = true.

Lemma stable_argsort_sorted :
  StronglySorted (fun a b => leb a b = true) (take (Iso.stable_argsort leb col) col).
Proof.
  unfold Iso.stable_argsort. rewrite take_pairs.
  - apply StronglySorted_map_snd.
    apply (sort_values_sorted (fun p q : nat * A => leb (snd p) (snd q)));
      [intros x y; apply leb_total|intros x y z; apply leb_trans].
  - eapply Permutation_Forall; [symmetry; apply sort_values_perm|].
    exact (combine_seq_positions [] col).
Qed.

Lemma iso_argsort_sorted :
  StronglySorted (fun a b => leb a b = true) (take (Iso.argsort leb col) col).
Proof.
  unfold Iso.argsort.
  destruct (Iso.each_position_once col (Iso.npy_argsort leb col)); cbn [andb];
    [|apply stable_argsort_sorted].
  destruct (Iso.ascending leb _) eqn:Hs; [|apply stable_argsort_sorted].
  apply Sorted_StronglySorted; [|now apply ascending_sorted].
  intros x y z. apply leb_trans.
Qed.

End IsoLaws.

Lemma parse_column_length (col : list string) :
  List.length (Iso.parse_column col) = List.length col.
Proof.
  unfold Iso.parse_column. destruct col as [|s col]; [reflexivity|].
  destruct (Iso.guess_format s); apply length_map.
Qed.

(** The reading as an instance of the interface. *)
Definition iso_pandas : Pandas :=
  {| to_datetime := Iso.parse_column;
     to_datetime_length := parse_column_length;
     datetime_str := Iso.print_datetime;
     str_to_numeric := Iso.parse_numeric;
     argsort := @Iso.argsort;
     argsort_permutation := @iso_argsort_permutation;
     argsort_sorted := @iso_argsort_sorted |}.

(** ** Duplicate keys *)

Section KeyFacts.
Context {A : Type}.
Variable by_ : A -> string.

Lemma has_key_true (k : string) (x : A) : has_key by_ k x = true <-> by_ x = k.
Proof. unfold has_key. apply String.eqb_eq. Qed.

Lemma existsb_has_key (k : string) (l : list A) :
  existsb (has_key by_ k) l = true <-> In k (map by_ l).
Proof.
  rewrite existsb_exists, in_map_iff. split.
  - intros [x [Hin Hk]]. apply has_key_true in Hk. eauto.
  - intros [x [Hk Hin]]. exists x. split; [assumption|]. now apply has_key_true.
Qed.

Lemma existsb_has_key_filter (k : string) (l : list A) :
  existsb (has_key by_ k) l = false <-> filter (has_key by_ k) l = [].
Proof.
  induction l as [|x l IH]; simpl; [tauto|].
  destruct (has_key by_ k x); simpl; [split; discriminate|exact IH].
Qed.

(** Of the rows that share a key, [groupby_tail1] keeps the last one only. *)
Lemma groupby_tail1_filter (k : string) (l : list A) :
  filter (has_key by_ k) (groupby_tail1 by_ l) = last_row (filter (has_key by_ k) l).
Proof.
  induction l as [|x l IH]; simpl; [reflexivity|].
  destruct (existsb (has_key by_ (by_ x)) l) eqn:Hex.
  - rewrite IH. destruct (has_key by_ k x) eqn:Hk; [|reflexivity].
    apply has_key_true in Hk. subst k.
    rewrite last_row_cons; [reflexivity|].
    intros Hnil. apply existsb_has_key_filter in Hnil. congruence.
  - simpl. destruct (has_key by_ k x) eqn:Hk; [|exact IH].
    apply has_key_true in Hk. subst k.
    apply existsb_has_key_filter in Hex. rewrite IH, Hex. reflexivity.
Qed.

Lemma groupby_tail1_In (x : A) (l : list A) :
  In x (groupby_tail1 by_ l) -> In x l.
Proof.
  induction l as [|y l IH]; simpl; [tauto|].
  destruct (existsb (has_key by_ (by_ y)) l); simpl; tauto.
Qed.

Lemma groupby_tail1_keys (k : string) (l : list A) :
  In k (map by_ (groupby_tail1 by_ l)) <-> In k (map by_ l).
Proof.
  induction l as [|x l IH]; simpl; [tauto|].
  destruct (existsb (has_key by_ (by_ x)) l) eqn:Hex; simpl; rewrite IH; [|tauto].
  apply existsb_has_key in Hex. split; [tauto|]. intros [<-|H]; assumption.
Qed.

Lemma groupby_tail1_NoDup (l : list A) : NoDup (map by_ (groupby_tail1 by_ l)).
Proof.
  induction l as [|x l IH]; simpl; [constructor|].
  destruct (existsb (has_key by_ (by_ x)) l) eqn:Hex; [exact IH|].
  simpl. constructor; [|exact IH].
  rewrite groupby_tail1_keys, <- existsb_has_key. congruence.
Qed.

Lemma groupby_tail1_id (l : list A) :
  NoDup (map by_ l) -> groupby_tail1 by_ l = l.
Proof.
  induction l as [|x l IH]; simpl; [reflexivity|].
  intros Hnd. inversion Hnd as [|? ? Hnotin Hnd']; subst.
  destruct (existsb (has_key by_ (by_ x)) l) eqn:Hex.
  - apply existsb_has_key in Hex. contradiction.
  - now rewrite IH.
Qed.

Lemma groupby_tail1_filter_le (q : A -> bool) (l : list A) :
  List.length (filter q (groupby_tail1 by_ l)) <= List.length (filter q l).
Proof.
  induction l as [|x l IH]; simpl; [lia|].
  destruct (existsb (has_key by_ (by_ x)) l); simpl; destruct (q x); simpl; lia.
Qed.

Lemma existsb_eqb_In (k : string) (seen : list string) :
  existsb (String.eqb k) seen = true <-> In k seen.
Proof.
  rewrite existsb_exists. split.
  - intros [s [Hin Hs]]. apply String.eqb_eq in Hs. now subst.
  - intros Hin. exists k. split; [assumption|apply String.eqb_refl].
Qed.

Lemma duplicated_first_keys (seen : list string) (l : list A) :
  sum_bool (duplicated_from by_ seen l) + List.length (first_keys by_ seen l)
  = List.length l.
Proof.
  revert seen. induction l as [|x l IH]; intros seen; simpl; [reflexivity|].
  specialize (IH (by_ x :: seen)). unfold sum_bool in *. simpl.
  destruct (existsb (String.eqb (by_ x)) seen); simpl; lia.
Qed.

Lemma first_keys_In (k : string) (seen : list string) (l : list A) :
  In k (first_keys by_ seen l) <-> In k (map by_ l) /\ ~ In k seen.
Proof.
  revert seen. induction l as [|x l IH]; intros seen; simpl; [tauto|].
  destruct (existsb (String.eqb (by_ x)) seen) eqn:Hex; simpl; rewrite IH; simpl.
  - apply existsb_eqb_In in Hex. split.
    + intros [Hin Hnot]. split; [now right|tauto].
    + intros [[<-|Hin] Hnot]; [contradiction|]. split; [assumption|].
      intros [<-|H]; contradiction.
  - assert (Hnot : ~ In (by_ x) seen) by (rewrite <- existsb_eqb_In; congruence).
    destruct (string_dec (by_ x) k) as [Heq|Hne]; [subst k|]; intuition congruence.
Qed.

Lemma first_keys_NoDup (seen : list string) (l : list A) :
  NoDup (first_keys by_ seen l).
Proof.
  revert seen. induction l as [|x l IH]; intros seen; simpl; [constructor|].
  destruct (existsb (String.eqb (by_ x)) seen); [apply IH|].
  constructor; [|apply IH]. rewrite first_keys_In. simpl. tauto.
Qed.

(** [duplicated] flags as many rows as the duplicate-key step drops, in
    whatever order the frame is handed to that step. *)
Lemma duplicated_count (l l' : list A) :
  Permutation l' l ->
  sum_bool (duplicated by_ l) + List.length (groupby_tail1 by_ l') = List.length l.
Proof.
  intros Hp. rewrite <- (duplicated_first_keys [] l). unfold duplicated. f_equal.
  rewrite <- (length_map by_ (groupby_tail1 by_ l')).
  apply Permutation_length, NoDup_Permutation.
  - apply groupby_tail1_NoDup.
  - apply first_keys_NoDup.
  - intros k. rewrite groupby_tail1_keys, first_keys_In. simpl.
    split.
    + intros Hin. split; [|tauto].
      eapply Permutation_in; [apply Permutation_map; exact Hp|exact Hin].
    + intros [Hin _].
      eapply Permutation_in; [apply Permutation_map; symmetry; exact Hp|exact Hin].
Qed.

Lemma duplicated_NoDup (l : list A) :
  NoDup (map by_ l) -> sum_bool (duplicated by_ l) = 0.
Proof.
  intros Hnd. pose proof (duplicated_count l l (Permutation_refl l)) as H.
  rewrite groupby_tail1_id in H by assumption. lia.
Qed.

End KeyFacts.

(** ** The order of the normalised frame *)

Lemma ts_leb_total (a b : option Z) : ts_leb a b = true \/ ts_leb b a = true.
Proof. destruct a, b; simpl; auto; lia. Qed.

Lemma ts_leb_trans (a b c : option Z) :
  ts_leb a b = true -> ts_leb b c = true -> ts_leb a c = true.
Proof. destruct a, b, c; simpl; auto; try discriminate; lia. Qed.

Lemma ts_leb_antisym (a b : option Z) :
  ts_leb a b = true -> ts_leb b a = true -> a = b.
Proof.
  destruct a, b; simpl; try discriminate; auto. intros. f_equal. lia.
Qed.

Lemma string_compare_cases (s t : string) :
  (s = t /\ String.compare s t = Eq /\ String.compare t s = Eq)
  \/ (String.compare s t = Lt /\ String.compare t s = Gt)
  \/ (String.compare s t = Gt /\ String.compare t s = Lt).
Proof.
  rewrite (String.compare_antisym t s).
  destruct (String.compare s t) eqn:H; simpl; auto.
  left. apply string_compare_eq in H. auto.
Qed.

Ltac order_strings s t :=
  let H := fresh "H" in
  destruct (string_compare_cases s t) as [[H [-> ->]]|[[-> ->]|[-> ->]]];
  try discriminate.

Lemma row_leb_total (a b : Row) : row_leb a b = true \/ row_leb b a = true.
Proof.
  unfold row_leb.
  destruct (String.compare (platform a) (platform b)) eqn:Hp; auto.
  - apply string_compare_eq in Hp. rewrite Hp, string_compare_refl.
    destruct (String.compare (song_id a) (song_id b)) eqn:Hs; auto.
    + apply string_compare_eq in Hs. rewrite Hs, string_compare_refl.
      apply ts_leb_total.
    + apply string_compare_gt in Hs. rewrite Hs. auto.
  - apply string_compare_gt in Hp. rewrite Hp. auto.
Qed.

Lemma row_leb_trans (a b c : Row) :
  row_leb a b = true -> row_leb b c = true -> row_leb a c = true.
Proof.
  unfold row_leb.
  destruct (String.compare (platform a) (platform b)) eqn:Hab; try discriminate;
    destruct (String.compare (platform b) (platform c)) eqn:Hbc; try discriminate.
  - apply string_compare_eq in Hab, Hbc. rewrite Hab, Hbc, string_compare_refl.
    destruct (String.compare (song_id a) (song_id b)) eqn:Sab; try discriminate;
      destruct (String.compare (song_id b) (song_id c)) eqn:Sbc; try discriminate.
    + apply string_compare_eq in Sab, Sbc. rewrite Sab, Sbc, string_compare_refl.
      apply ts_leb_trans.
    + apply string_compare_eq in Sab. now rewrite Sab, Sbc.
    + apply string_compare_eq in Sbc. now rewrite <- Sbc, Sab.
    + now rewrite (string_compare_lt_trans _ _ _ Sab Sbc).
  - apply string_compare_eq in Hab. now rewrite Hab, Hbc.
  - apply string_compare_eq in Hbc. now rewrite <- Hbc, Hab.
  - now rewrite (string_compare_lt_trans _ _ _ Hab Hbc).
Qed.

(** Two rows the order does not separate agree on platform, song and timestamp. *)
Lemma row_leb_antisym (a b : Row) :
  row_leb a b = true -> row_leb b a = true ->
  platform a = platform b /\ song_id a = song_id b /\ timestamp a = timestamp b.
Proof.
  unfold row_leb.
  order_strings (platform a) (platform b).
  order_strings (song_id a) (song_id b).
  intros H1 H2. repeat split; try assumption. now apply ts_leb_antisym.
Qed.

Lemma same_group_true (a b : Row) :
  same_group a b = true <-> platform a = platform b /\ song_id a = song_id b.
Proof.
  unfold same_group. now rewrite andb_true_iff, !String.eqb_eq.
Qed.

Lemma row_leb_same_group (a b : Row) :
  same_group a b = true -> row_leb a b = ts_leb (timestamp a) (timestamp b).
Proof.
  intros H. apply same_group_true in H. destruct H as [Hp Hs].
  unfold row_leb. now rewrite Hp, Hs, !string_compare_refl.
Qed.

(** In a sorted frame a group is a block: a row between two rows of a group
    belongs to the group. *)
Lemma row_leb_between (a b c : Row) :
  row_leb a b = true -> row_leb b c = true -> same_group c a = true ->
  same_group c b = true.
Proof.
  intros Hab Hbc Hg. apply same_group_true in Hg. destruct Hg as [Hp Hs].
  apply same_group_true. revert Hab Hbc. unfold row_leb. rewrite Hp, Hs.
  order_strings (platform a) (platform b).
  order_strings (song_id a) (song_id b).
  auto.
Qed.

(** ** The normaliser *)

Section Normalizer.
Context {pd : Pandas}.

Lemma key_leb_total (a b : Row) : key_leb a b = true \/ key_leb b a = true.
Proof. apply String.leb_total. Qed.

Lemma key_leb_trans (a b c : Row) :
  key_leb a b = true -> key_leb b c = true -> key_leb a c = true.
Proof. apply string_leb_trans. Qed.

Lemma key_same (a b : Row) :
  platform a = platform b -> song_id a = song_id b -> timestamp a = timestamp b ->
  key a = key b.
Proof. unfold key. now intros -> -> ->. Qed.

(** A row without a timestamp has the key of its group followed by [NaT]. *)
Lemma key_NaT (r : Row) :
  isna_ts r = true -> key r = (platform r ++ "::" ++ song_id r ++ "::NaT")%string.
Proof.
  unfold isna_ts, notna_ts, key. destruct (timestamp r); [discriminate|reflexivity].
Qed.

Lemma dedup_perm_sub (q : Row -> bool) (df : list Row) :
  List.length (filter q (dedup df)) <= List.length (filter q df).
Proof.
  unfold dedup. etransitivity; [apply groupby_tail1_filter_le|].
  now rewrite sort_values_quick_filter_length.
Qed.

Lemma dedup_In (r : Row) (df : list Row) : In r (dedup df) -> In r df.
Proof.
  unfold dedup. intros Hin. apply groupby_tail1_In in Hin.
  now apply sort_values_quick_In in Hin.
Qed.

Lemma dedup_nil : dedup [] = [].
Proof. unfold dedup. now rewrite sort_values_quick_nil. Qed.

Lemma dedup_NoDup (df : list Row) : NoDup (map key (dedup df)).
Proof. apply groupby_tail1_NoDup. Qed.

(** The duplicate-key step keeps one row of each key of the frame. *)
Lemma dedup_key_once (k : string) (df : list Row) :
  List.length (filter (has_key key k) (dedup df)) <= 1.
Proof.
  pose proof (dedup_NoDup df) as Hnd. revert Hnd.
  generalize (dedup df). intros l.
  induction l as [|x l IH]; cbn [map filter]; [intros _; cbn; lia|].
  intros Hnd. inversion Hnd as [|? ? Hnotin Hnd']; subst.
  destruct (has_key key k x) eqn:Hx; [|now apply IH].
  apply has_key_true in Hx. cbn [List.length].
  destruct (filter (has_key key k) l) as [|y l'] eqn:Hf; [cbn; lia|].
  exfalso. apply Hnotin.
  assert (Hy : In y (filter (has_key key k) l)) by (rewrite Hf; now left).
  apply filter_In in Hy as [Hy Hky]. apply has_key_true in Hky.
  rewrite Hx, <- Hky. now apply in_map.
Qed.

Lemma dedup_key_kept (k : string) (df : list Row) :
  filter (has_key key k) df <> [] -> filter (has_key key k) (dedup df) <> [].
Proof.
  unfold dedup. rewrite groupby_tail1_filter. intros Hne Hnil.
  apply last_row_nil in Hnil. apply Hne. apply length_zero_iff_nil.
  rewrite <- (sort_values_quick_filter_length key_leb). now rewrite Hnil.
Qed.

Lemma dedup_count (df : list Row) :
  sum_bool (duplicated key df) + List.length (dedup df) = List.length df.
Proof. apply duplicated_count, sort_values_quick_perm. Qed.

Lemma dedup_id (df : list Row) :
  NoDup (map key df) -> dedup df = sort_values_quick key_leb df.
Proof.
  intros Hnd. unfold dedup. apply groupby_tail1_id.
  eapply Permutation_NoDup; [|exact Hnd].
  apply Permutation_map. symmetry. apply sort_values_quick_perm.
Qed.

Lemma normalize_frame_eq (df : list Row) :
  normalize_frame df
  = (filter notna_ts (sort_values row_leb (dedup df)),
     sum_bool (duplicated key df),
     List.length (filter isna_ts (dedup df))).
Proof.
  unfold normalize_frame. cbv zeta. f_equal.
  pose proof (filter_split_length notna_ts (sort_values row_leb (dedup df))) as Hsplit.
  fold isna_ts in Hsplit.
  change (fun x : Row => negb (notna_ts x)) with isna_ts in Hsplit.
  rewrite (sort_values_filter_length row_leb isna_ts) in Hsplit. lia.
Qed.

Lemma normalize_logged_eq (df_raw : list RawRecord) :
  normalize_logged df_raw
  = match _ensure_columns df_raw with
    | Some cols => Some (normalize_frame (_build_timestamp cols))
    | None => None
    end.
Proof.
  destruct df_raw; [|reflexivity].
  cbn. unfold normalize_frame. now rewrite dedup_nil.
Qed.

Lemma normalize_eq (df_raw : list RawRecord) :
  normalize df_raw
  = match _ensure_columns df_raw with
    | Some cols =>
        let df := _build_timestamp cols in
        Some (filter notna_ts (sort_values row_leb (dedup df)),
              sum_bool (duplicated key df))
    | None => None
    end.
Proof.
  unfold normalize. rewrite normalize_logged_eq.
  destruct (_ensure_columns df_raw); [|reflexivity].
  now rewrite normalize_frame_eq.
Qed.

Lemma normalized_NoDup (df : list Row) :
  NoDup (map key (filter notna_ts (sort_values row_leb (dedup df)))).
Proof.
  assert (Hs : NoDup (map key (sort_values row_leb (dedup df)))).
  { eapply Permutation_NoDup; [|apply dedup_NoDup].
    apply Permutation_map. symmetry. apply sort_values_perm. }
  revert Hs. generalize (sort_values row_leb (dedup df)). intros l.
  induction l as [|x l IH]; simpl; [constructor|].
  intros Hnd. inversion Hnd as [|? ? Hnotin Hnd']; subst.
  destruct (notna_ts x); simpl; [|now apply IH].
  constructor; [|now apply IH].
  intros Hin. apply Hnotin. apply in_map_iff in Hin. destruct Hin as [y [Hy Hin]].
  apply filter_In in Hin. rewrite <- Hy. apply in_map. tauto.
Qed.

Lemma normalized_sorted (df : list Row) :
  StronglySorted row_le (filter notna_ts (sort_values row_leb (dedup df))).
Proof.
  apply StronglySorted_filter.
  apply (sort_values_sorted row_leb row_leb_total row_leb_trans).
Qed.

End Normalizer.

Section NormalizerClaims.
Context {pd : Pandas}.

Lemma row_le_transitive : Relations_1.Transitive row_le.
Proof. intros a b c. apply row_leb_trans. Qed.

Lemma ensure_row_as_raw (r : Row) : int64_time r -> ensure_row (as_raw r) = Some (cols r).
Proof.
  intros [Hh Hm]. unfold ensure_row, to_int_cell. simpl. rewrite !Z.quot_1_r, Hh, Hm.
  destruct r as [[] ?]; reflexivity.
Qed.

Lemma ensure_columns_as_raw (rows : list Row) :
  Forall (fun r : Row => int64_time r) rows ->
  _ensure_columns (map as_raw rows) = Some (map cols rows).
Proof.
  unfold _ensure_columns. induction 1 as [|r rows Hr _ IH]; [reflexivity|].
  cbn [map traverse]. now rewrite ensure_row_as_raw, IH.
Qed.

Lemma timestamps_length (df : list Columns) :
  List.length (timestamps df) = List.length df.
Proof. unfold timestamps. now rewrite to_datetime_length, length_map. Qed.

Lemma build_timestamp_length (df : list Columns) :
  List.length (_build_timestamp df) = List.length df.
Proof.
  unfold _build_timestamp. rewrite length_map, length_combine, timestamps_length. lia.
Qed.

Lemma build_timestamp_nth (df : list Columns) (i : nat) (r : Row) :
  nth_error (_build_timestamp df) i = Some r ->
  nth_error df i = Some (cols r) /\ nth_error (timestamps df) i = Some (timestamp r).
Proof.
  unfold _build_timestamp. generalize (timestamps df). revert i.
  induction df as [|c df IH]; intros i ts; [destruct i; discriminate|].
  destruct ts as [|t ts]; [destruct i; discriminate|].
  destruct i as [|i]; cbn [combine map nth_error fst snd].
  - intros H. injection H as <-. split; reflexivity.
  - apply IH.
Qed.

Lemma build_timestamp_In (r : Row) (df : list Columns) :
  In r (_build_timestamp df) -> In (timestamp r) (timestamps df).
Proof.
  intros Hr. apply In_nth_error in Hr as [i Hi].
  apply build_timestamp_nth in Hi as [_ Hi]. eapply nth_error_In, Hi.
Qed.

Lemma build_timestamp_cols (df : list Columns) : map cols (_build_timestamp df) = df.
Proof.
  unfold _build_timestamp. pose proof (timestamps_length df) as Hlen. revert Hlen.
  generalize (timestamps df). induction df as [|c df IH]; intros ts Hlen; [reflexivity|].
  destruct ts as [|t ts]; [discriminate|].
  cbn [combine map fst snd cols]. f_equal. apply IH. now injection Hlen.
Qed.

(** A frame with valid timestamps that the normaliser builds again, distinct
    keys and sorted rows is a fixed point of the normaliser. *)
Lemma normalize_fixed (rows : list Row) :
  _build_timestamp (map cols rows) = rows ->
  Forall (fun r : Row => notna_ts r = true /\ int64_time r) rows ->
  NoDup (map key rows) ->
  StronglySorted row_le rows ->
  normalize (map as_raw rows) = Some (rows, 0).
Proof.
  intros Hbuilt Hrows Hnd Hsorted.
  rewrite normalize_eq, ensure_columns_as_raw
    by (eapply Forall_impl; [|exact Hrows]; intros r Hr; apply Hr).
  cbv zeta. rewrite Hbuilt.
  rewrite duplicated_NoDup by assumption.
  rewrite dedup_id by assumption.
  assert (Hsame : sort_values row_leb (sort_values_quick key_leb rows) = rows).
  { apply (sorted_perm_unique row_le).
    - intros a b Ha Hb Hab Hba.
      apply sort_values_In, sort_values_quick_In in Ha.
      apply sort_values_In, sort_values_quick_In in Hb.
      destruct (row_leb_antisym a b Hab Hba) as (Hp & Hs & Ht).
      apply (NoDup_map_injective key rows); auto using key_same.
    - apply (sort_values_sorted row_leb row_leb_total row_leb_trans).
    - exact Hsorted.
    - rewrite sort_values_perm. apply sort_values_quick_perm. }
  rewrite Hsame, filter_all; [reflexivity|].
  eapply Forall_impl; [|exact Hrows]. intros r Hr. apply Hr.
Qed.

(** C3.  The normaliser's result is sorted ascending by platform, song and
    timestamp, and of two of its rows that belong to one song the earlier
    in the frame has the strictly smaller timestamp. *)
Theorem normalize_sorted (df_raw : list RawRecord) (cols : list Columns) :
  _ensure_columns df_raw = Some cols ->
  exists (out : list Row) (n : nat),
    normalize df_raw = Some (out, n)
    /\ StronglySorted row_le out
    /\ (forall i j a b, i < j ->
          nth_error out i = Some a -> nth_error out j = Some b ->
          same_group a b = true -> ts_lt (timestamp a) (timestamp b)).
Proof.
  intros Hcols. rewrite normalize_eq, Hcols. cbv zeta.
  eexists _, _. split; [reflexivity|].
  split; [apply normalized_sorted|].
  intros i j a b Hij Ha Hb Hg.
  pose proof (StronglySorted_nth_error row_le _ i j a b
                (normalized_sorted _) Hij Ha Hb) as Hle.
  pose proof (NoDup_map_nth_error key _ i j a b (normalized_NoDup _) Hij Ha Hb) as Hne.
  unfold row_le in Hle. rewrite (row_leb_same_group a b Hg) in Hle.
  apply same_group_true in Hg. destruct Hg as [Hp Hs].
  apply nth_error_In, filter_In in Ha. apply nth_error_In, filter_In in Hb.
  destruct Ha as [_ Ha], Hb as [_ Hb]. unfold notna_ts in Ha, Hb.
  destruct (timestamp a) as [x|] eqn:Hta; [|discriminate].
  destruct (timestamp b) as [y|] eqn:Htb; [|discriminate].
  simpl in *. apply Z.leb_le in Hle.
  destruct (Z.eq_dec x y) as [->|Hxy]; [|lia].
  exfalso. apply Hne. apply key_same; congruence.
Qed.

(** C10, amended.  Normalising a frame that is already normalised (valid
    timestamps, no key twice, rows sorted, hour and minute within int64)
    returns the same rows and a collision count of zero when the timestamp
    column is the one the normaliser builds again from the date, hour and
    minute columns of the frame. *)
Theorem normalize_idempotent (rows : list Row) :
  _build_timestamp (map cols rows) = rows ->
  Forall (fun r : Row => notna_ts r = true /\ int64_time r) rows ->
  NoDup (map key rows) ->
  Sorted row_le rows ->
  normalize (map as_raw rows) = Some (rows, 0).
Proof.
  intros Hbuilt Hrows Hnd Hsorted. apply normalize_fixed; try assumption.
  apply Sorted_StronglySorted; [exact row_le_transitive|assumption].
Qed.

End NormalizerClaims.

Section RejectedRows.
Context {pd : Pandas}.

Lemma filter_filter_andb {A : Type} (p q : A -> bool) (l : list A) :
  filter p (filter q l) = filter (fun x => (p x && q x)%bool) l.
Proof.
  induction l as [|x l IH]; simpl; [reflexivity|].
  destruct (q x), (p x) eqn:Hp; simpl; rewrite ?Hp, IH; reflexivity.
Qed.

Lemma filter_length_impl {A : Type} (p q : A -> bool) (l : list A) :
  (forall x, p x = true -> q x = true) ->
  List.length (filter p l) <= List.length (filter q l).
Proof.
  intros Himp. induction l as [|x l IH]; simpl; [lia|].
  destruct (p x) eqn:Hp.
  - rewrite (Himp x Hp). simpl. lia.
  - destruct (q x); simpl; lia.
Qed.

Lemma bad_in_group_key (p s : string) (r : Row) :
  bad_in_group p s r = true ->
  has_key key (bad_key p s) r = true /\ isna_ts r = true.
Proof.
  unfold bad_in_group. rewrite !andb_true_iff, !String.eqb_eq.
  intros [[Hp Hs] Hna]. split; [|exact Hna].
  apply has_key_true. rewrite (key_NaT r Hna), Hp, Hs. reflexivity.
Qed.

(** When [k] rows share a key, the step drops at least [k - 1] rows with
    that key, whatever predicate [q] the count is restricted to. *)
Lemma dedup_drops (k : string) (q : Row -> bool) (df : list Row) :
  List.length (filter q (dedup df)) + List.length (filter (has_key key k) (filter q df))
  <= List.length (filter q df) + 1.
Proof.
  pose proof (filter_split_length (has_key key k) (filter q (dedup df))) as HD.
  pose proof (filter_split_length (has_key key k) (filter q df)) as Hdf.
  assert (H1 : List.length (filter (has_key key k) (filter q (dedup df))) <= 1).
  { rewrite filter_comm. etransitivity; [apply filter_length_le|apply dedup_key_once]. }
  assert (H2 : List.length (filter (fun x => negb (has_key key k x)) (filter q (dedup df)))
               <= List.length (filter (fun x => negb (has_key key k x)) (filter q df))).
  { rewrite !filter_filter_andb. apply dedup_perm_sub. }
  lia.
Qed.

(** C7.  A row whose timestamp did not parse gets the key of its song
    followed by [NaT].  When [k > 1] rows of one song have no timestamp,
    at least [k - 1] collisions are counted, at most one of these rows is
    left when the rows without a timestamp are removed, and the number
    logged as removed is smaller than the number of input rows without a
    timestamp. *)
Theorem normalize_unparsable_collide (df_raw : list RawRecord) (cols : list Columns)
    (p s : string) :
  _ensure_columns df_raw = Some cols ->
  1 < List.length (filter (bad_in_group p s) (_build_timestamp cols)) ->
  exists (out : list Row) (n removed : nat),
    normalize_logged df_raw = Some (out, n, removed)
    /\ (forall r, In r (_build_timestamp cols) -> bad_in_group p s r = true ->
                  key r = bad_key p s)
    /\ List.length (filter (bad_in_group p s) (_build_timestamp cols)) - 1 <= n
    /\ List.length (filter (bad_in_group p s) (dedup (_build_timestamp cols))) <= 1
    /\ removed = List.length (filter isna_ts (dedup (_build_timestamp cols)))
    /\ removed < List.length (filter isna_ts (_build_timestamp cols)).
Proof.
  intros Hcols Hk. rewrite normalize_logged_eq, Hcols, normalize_frame_eq.
  set (df := _build_timestamp cols) in *.
  eexists _, _, _. split; [reflexivity|].
  assert (Hbad : forall r, bad_in_group p s r = true ->
                           has_key key (bad_key p s) r = true)
    by (intros r Hr; now apply bad_in_group_key).
  split; [intros r _ Hr; now apply has_key_true, Hbad|].
  split.
  { pose proof (dedup_count df) as Hcount.
    pose proof (dedup_drops (bad_key p s) (fun _ => true) df) as Hdrop.
    rewrite !(filter_all (fun _ => true)) in Hdrop
      by (apply Forall_forall; reflexivity).
    pose proof (filter_length_impl _ _ df Hbad). lia. }
  split.
  { etransitivity; [apply (filter_length_impl _ _ _ Hbad)|apply dedup_key_once]. }
  split; [reflexivity|].
  pose proof (dedup_drops (bad_key p s) isna_ts df) as Hdrop.
  assert (Hsub : List.length (filter (bad_in_group p s) df)
                 <= List.length (filter (has_key key (bad_key p s)) (filter isna_ts df))).
  { rewrite filter_filter_andb. apply filter_length_impl. intros r Hr.
    destruct (bad_in_group_key p s r Hr) as [-> ->]. reflexivity. }
  lia.
Qed.

Lemma traverse_length {A B : Type} (f : A -> option B) (l : list A) (ys : list B) :
  traverse f l = Some ys -> List.length ys = List.length l.
Proof.
  revert ys. induction l as [|x l IH]; simpl; intros ys Hys.
  - now injection Hys as <-.
  - destruct (f x); [|discriminate]. destruct (traverse f l); [|discriminate].
    injection Hys as <-. simpl. f_equal. now apply IH.
Qed.

Lemma traverse_In {A B : Type} (f : A -> option B) (l : list A) (ys : list B) (y : B) :
  traverse f l = Some ys -> In y ys -> exists x, In x l /\ f x = Some y.
Proof.
  revert ys. induction l as [|x l IH]; simpl; intros ys Hys Hy.
  - injection Hys as <-. contradiction.
  - destruct (f x) as [y0|] eqn:Hfx; [|discriminate].
    destruct (traverse f l) as [ys0|]; [|discriminate].
    injection Hys as <-. destruct Hy as [<-|Hy]; [eauto|].
    destruct (IH ys0 eq_refl Hy) as [x' [Hx' Hf]]. eauto.
Qed.

Lemma traverse_nth {A B : Type} (f : A -> option B) (l : list A) (ys : list B)
    (i : nat) (y : B) :
  traverse f l = Some ys -> nth_error ys i = Some y ->
  exists x, nth_error l i = Some x /\ f x = Some y.
Proof.
  revert ys i. induction l as [|x l IH]; simpl; intros ys i Hys Hy.
  - injection Hys as <-. destruct i; discriminate.
  - destruct (f x) as [y0|] eqn:Hfx; [|discriminate].
    destruct (traverse f l) as [ys0|]; [|discriminate].
    injection Hys as <-. destruct i as [|i]; simpl in *.
    + injection Hy as <-. eauto.
    + now apply (IH ys0).
Qed.

Lemma traverse_total {A B : Type} (f : A -> option B) (l : list A) :
  Forall (fun x => f x <> None) l ->
  exists ys, traverse f l = Some ys /\ List.length ys = List.length l.
Proof.
  induction 1 as [|x l Hx _ [ys [IH Hlen]]]; simpl.
  - now exists [].
  - destruct (f x) as [y|]; [|congruence]. rewrite IH.
    exists (y :: ys). simpl. now rewrite Hlen.
Qed.

Lemma traverse_None {A B : Type} (f : A -> option B) (l : list A) :
  traverse f l = None <-> Exists (fun x => f x = None) l.
Proof.
  induction l as [|x l IH]; simpl.
  - split; [discriminate|]. intros Hex. inversion Hex.
  - destruct (f x) as [y|] eqn:Hfx.
    + destruct (traverse f l).
      * split; [discriminate|]. intros Hex. inversion Hex; subst; [congruence|].
        now apply IH in H0.
      * split; [|reflexivity]. intros _. right. now apply IH.
    + split; [|reflexivity]. intros _. now left.
Qed.

Lemma to_int_cell_finite (c : cell) : to_int_cell c <> None <-> finite_cell c.
Proof.
  unfold to_int_cell, finite_cell. destruct (to_numeric c); simpl.
  - split; [tauto|discriminate].
  - tauto.
  - split; [tauto|discriminate].
Qed.

Lemma ensure_row_finite (r : RawRecord) : ensure_row r <> None <-> finite_time r.
Proof.
  unfold ensure_row, finite_time. rewrite <- !to_int_cell_finite.
  destruct (to_int_cell (raw_hour r)), (to_int_cell (raw_minute r));
    split; try discriminate; intuition congruence.
Qed.

(** The normaliser raises exactly when an hour or a minute is infinite. *)
Lemma normalize_raises_iff (df_raw : list RawRecord) :
  normalize df_raw = None <-> Exists (fun r => ~ finite_time r) df_raw.
Proof.
  rewrite normalize_eq. unfold _ensure_columns.
  destruct (traverse ensure_row df_raw) eqn:Ht.
  - split; [discriminate|]. intros Hex. exfalso.
    assert (Hn : traverse ensure_row df_raw = None).
    { apply traverse_None. eapply Exists_impl; [|exact Hex].
      intros r Hr. destruct (ensure_row r) eqn:He; [|reflexivity].
      exfalso. apply Hr, ensure_row_finite. congruence. }
    congruence.
  - split; [|reflexivity]. intros _. apply traverse_None in Ht.
    eapply Exists_impl; [|exact Ht]. intros r Hr Hfin.
    now apply ensure_row_finite in Hfin.
Qed.

(** C9, as the code has it.  When no hour or minute is infinite the
    normaliser returns: every raw record is coerced, an empty input gives an
    empty frame and zero collisions, and so does, for the frame, an input
    whose timestamps all fail to parse.  A string that is no number becomes
    NaN in a counter and 0 in the hour or minute.  The metrics engine and
    the aggregator return empty results and zero counts on an empty frame. *)
Theorem pipeline_degrades (df_raw : list RawRecord) :
  Forall finite_time df_raw ->
  exists (cols : list Columns) (out : list Row) (n : nat),
    _ensure_columns df_raw = Some cols
    /\ List.length cols = List.length df_raw
    /\ normalize df_raw = Some (out, n)
    /\ (df_raw = [] -> out = [] /\ n = 0)
    /\ (Forall (fun t => t = None) (timestamps cols) -> out = [])
    /\ (forall s, str_to_numeric s = NaN ->
                  to_numeric (CStr s) = NaN /\ to_int_cell (CStr s) = Some 0%Z)
    /\ add_metrics [] = ([], 0)
    /\ build_summary_table [] = ([], []).
Proof.
  intros Hfin.
  destruct (traverse_total ensure_row df_raw) as [cols [Hcols Hlen]].
  { eapply Forall_impl; [|exact Hfin]. intros r. apply ensure_row_finite. }
  exists cols. rewrite normalize_eq. unfold _ensure_columns. rewrite Hcols. cbv zeta.
  eexists _, _.
  split; [reflexivity|]. split; [exact Hlen|]. split; [reflexivity|].
  split; [|split; [|split; [|split; reflexivity]]].
  - intros ->. destruct cols; [|discriminate].
    change (_build_timestamp []) with (@nil Row). rewrite dedup_nil. split; reflexivity.
  - intros Hnat. apply filter_none, Forall_forall. intros r Hr.
    apply sort_values_In, dedup_In, build_timestamp_In in Hr.
    rewrite Forall_forall in Hnat.
    unfold notna_ts. now rewrite (Hnat _ Hr).
  - intros s Hs. unfold to_int_cell. simpl. now rewrite Hs.
Qed.

End RejectedRows.

(** ** The metrics engine *)

Lemma fgt0_positive (x : float64) : fgt0 x = true <-> positive x.
Proof.
  destruct x as [q|s|]; simpl.
  - rewrite negb_true_iff. split.
    + intros Hle. apply Qnot_le_lt. intros Hq.
      apply Qle_bool_iff in Hq. congruence.
    + intros Hlt. destruct (Qle_bool q 0) eqn:Hle; [|reflexivity].
      apply Qle_bool_iff in Hle. now apply Qlt_not_le in Hlt.
  - apply negb_true_iff.
  - split; [discriminate|tauto].
Qed.

Lemma flt0_negative (x : float64) : flt0 x = true <-> negative x.
Proof.
  destruct x as [q|s|]; simpl.
  - rewrite negb_true_iff. split.
    + intros Hle. apply Qnot_le_lt. intros Hq.
      apply Qle_bool_iff in Hq. congruence.
    + intros Hlt. destruct (Qle_bool 0 q) eqn:Hle; [|reflexivity].
      apply Qle_bool_iff in Hle. now apply Qlt_not_le in Hlt.
  - tauto.
  - split; [discriminate|tauto].
Qed.

(** Elapsed minutes are a finite number or missing. *)
Lemma diff_minutes_cases (r : Row) (prev : option Row) :
  diff_minutes r prev = NaN \/ exists t, diff_minutes r prev = Finite t.
Proof.
  unfold diff_minutes. destruct prev as [p|]; [|now left].
  destruct (timestamp r), (timestamp p); eauto.
Qed.

Lemma fdiv_positive_notna (x : float64) (t : Q) :
  (0 < t)%Q -> notna (fdiv x (Finite t)) = notna x.
Proof.
  intros Ht. destruct x as [q|s|]; simpl; try reflexivity.
  destruct (Qeq_bool t 0) eqn:Hz; [|reflexivity].
  apply Qeq_bool_iff in Hz. rewrite Hz in Ht. now apply Qlt_irrefl in Ht.
Qed.

Lemma fdiv_finite (d t : Q) :
  (0 < t)%Q -> exists q, fdiv (Finite d) (Finite t) = Finite q /\ (q == d / t)%Q.
Proof.
  intros Ht. cbn [fdiv]. destruct (Qeq_bool t 0) eqn:Hz.
  - apply Qeq_bool_iff in Hz. rewrite Hz in Ht. now apply Qlt_irrefl in Ht.
  - eexists. split; [reflexivity|apply Qred_correct].
Qed.

Lemma rate_per_min_guard (r : Row) (prev : option Row) (delta : float64) :
  let dm := diff_minutes r prev in
  let rate := rate_per_min (fgt0 dm) delta dm in
  (rate_present rate = true <-> positive dm /\ notna delta = true)
  /\ (rate_present rate = true -> rate = Some (fdiv delta dm))
  /\ (~ positive dm -> rate = None).
Proof.
  cbv zeta. unfold rate_per_min.
  destruct (diff_minutes_cases r prev) as [->|[t ->]].
  - simpl. repeat split; try discriminate; tauto.
  - destruct (fgt0 (Finite t)) eqn:Hgt.
    + pose proof (proj1 (fgt0_positive _) Hgt) as Hpos. simpl in Hpos.
      simpl rate_present. rewrite (fdiv_positive_notna delta t Hpos).
      repeat split; try tauto.
    + assert (Hnpos : ~ positive (Finite t))
        by (rewrite <- fgt0_positive; congruence).
      simpl rate_present. repeat split; try discriminate; tauto.
Qed.

Lemma metric_columns_form (seen df : list Row) (m : MetricRow) :
  In m (metric_columns seen df) -> exists r prev, m = metric_row r prev.
Proof.
  revert seen. induction df as [|r df IH]; intros seen; simpl; [tauto|].
  intros [<-|Hin]; eauto.
Qed.

Lemma add_metrics_form (df : list Row) (m : MetricRow) :
  In m (fst (add_metrics df)) -> exists r prev, m = metric_row r prev.
Proof.
  destruct df as [|r0 df]; [simpl; tauto|]. apply metric_columns_form.
Qed.

Lemma StronglySorted_app_inv {A : Type} (R : A -> A -> Prop) (l1 l2 : list A) :
  StronglySorted R (l1 ++ l2) ->
  StronglySorted R l1 /\ StronglySorted R l2
  /\ (forall x y, In x l1 -> In y l2 -> R x y).
Proof.
  induction l1 as [|a l1 IH]; simpl; intros Hs.
  - repeat split; [constructor|assumption|tauto].
  - inversion Hs as [|? ? Hs' Ha]; subst. destruct (IH Hs') as (H1 & H2 & H12).
    rewrite Forall_app in Ha. destruct Ha as [Ha1 Ha2].
    repeat split; [now constructor|assumption|].
    intros x y [<-|Hx] Hy; [|now apply H12].
    rewrite Forall_forall in Ha2. now apply Ha2.
Qed.

Lemma find_all_false {A : Type} (f : A -> bool) (l : list A) :
  (forall x, In x l -> f x = false) -> find f l = None.
Proof.
  induction l as [|x l IH]; simpl; intros Hf; [reflexivity|].
  rewrite (Hf x) by now left. apply IH. intros y Hy. apply Hf. now right.
Qed.

(** In a sorted frame the previous row of the same song, if any, is the row
    just above. *)
Lemma find_previous_adjacent (seen : list Row) (r : Row) :
  StronglySorted row_le (rev seen ++ [r]) ->
  find (same_group r) seen = adjacent_prev (hd_error seen) r.
Proof.
  destruct seen as [|p seen]; [reflexivity|]. simpl. intros Hs.
  destruct (same_group r p) eqn:Hg; [reflexivity|].
  apply find_all_false. intros q Hq.
  destruct (same_group r q) eqn:Hgq; [|reflexivity].
  rewrite <- app_assoc in Hs. simpl in Hs.
  apply StronglySorted_app_inv in Hs. destruct Hs as (_ & Hpr & Hqp).
  inversion Hpr as [|? ? _ Hp]; subst. inversion Hp as [|? ? Hpr' _]; subst.
  assert (Hqp' : row_le q p) by (apply Hqp; [now apply in_rev in Hq|now left]).
  rewrite <- Hg. symmetry. now apply (row_leb_between q p r).
Qed.

Lemma metric_columns_adjacent (seen df : list Row) :
  StronglySorted row_le (rev seen ++ df) ->
  metric_columns seen df = adjacent_columns (hd_error seen) df.
Proof.
  revert seen. induction df as [|r df IH]; intros seen Hs; simpl; [reflexivity|].
  f_equal.
  - f_equal. apply find_previous_adjacent.
    replace (rev seen ++ r :: df) with ((rev seen ++ [r]) ++ df) in Hs
      by (now rewrite <- app_assoc).
    now apply StronglySorted_app_inv in Hs.
  - apply (IH (r :: seen)). simpl. now rewrite <- app_assoc.
Qed.

(** The engine differences each row of the sorted frame against the row
    just above it, and only within a song. *)
Lemma add_metrics_adjacent (df : list Row) :
  fst (add_metrics df) = adjacent_columns None (sort_values row_leb df).
Proof.
  destruct df as [|r0 df]; [reflexivity|].
  unfold add_metrics. cbv zeta. unfold fst.
  apply (metric_columns_adjacent []). cbn [rev app].
  apply (sort_values_sorted row_leb row_leb_total row_leb_trans).
Qed.


Lemma adjacent_columns_next (above : option Row) (l : list Row) (j : nat) (m : MetricRow) :
  nth_error (adjacent_columns above l) (S j) = Some m ->
  exists p, nth_error (adjacent_columns above l) j = Some p
            /\ m = metric_row m (adjacent_prev (Some (row p)) m).
Proof.
  revert above j. induction l as [|r0 l IH]; intros above j; simpl; [discriminate|].
  destruct j as [|j].
  - destruct l as [|r1 l]; simpl; [discriminate|].
    intros Hm. injection Hm as <-. eexists. split; reflexivity.
  - intros Hm. apply (IH (Some r0) j Hm).
Qed.


(** C4.  In every row of the engine's output a rate holds a value exactly
    when the elapsed minutes are positive and the delta holds a value, and
    then it is the delta divided by the elapsed minutes; when the elapsed
    minutes are not positive both rates are missing. *)
Theorem add_metrics_rate_guard (df : list Row) (m : MetricRow) :
  In m (fst (add_metrics df)) ->
  (rate_present (rate_plays_per_min m) = true
   <-> positive (delta_minutes m) /\ notna (delta_plays m) = true)
  /\ (rate_present (rate_listeners_per_min m) = true
      <-> positive (delta_minutes m) /\ notna (delta_listeners m) = true)
  /\ (rate_present (rate_plays_per_min m) = true ->
      rate_plays_per_min m = Some (fdiv (delta_plays m) (delta_minutes m)))
  /\ (rate_present (rate_listeners_per_min m) = true ->
      rate_listeners_per_min m = Some (fdiv (delta_listeners m) (delta_minutes m)))
  /\ (forall d t, delta_plays m = Finite d -> delta_minutes m = Finite t -> (0 < t)%Q ->
        exists q, rate_plays_per_min m = Some (Finite q) /\ (q == d / t)%Q)
  /\ (forall d t, delta_listeners m = Finite d -> delta_minutes m = Finite t -> (0 < t)%Q ->
        exists q, rate_listeners_per_min m = Some (Finite q) /\ (q == d / t)%Q)
  /\ (~ positive (delta_minutes m) ->
      rate_plays_per_min m = None /\ rate_listeners_per_min m = None).
Proof.
  intros Hin. apply add_metrics_form in Hin. destruct Hin as [r [prev ->]].
  destruct (rate_per_min_guard r prev (diff_float total_plays r prev))
    as (Hp_iff & Hp_val & Hp_none).
  destruct (rate_per_min_guard r prev (diff_float total_listeners r prev))
    as (Hl_iff & Hl_val & Hl_none).
  simpl. repeat (split; [assumption|]).
  assert (Hfin : forall delta d t,
             delta = Finite d -> diff_minutes r prev = Finite t -> (0 < t)%Q ->
             exists q, rate_per_min (fgt0 (diff_minutes r prev)) delta (diff_minutes r prev)
                       = Some (Finite q) /\ (q == d / t)%Q).
  { intros delta d t -> -> Ht. unfold rate_per_min.
    rewrite (proj2 (fgt0_positive (Finite t)) Ht).
    destruct (fdiv_finite d t Ht) as [q [-> Hq]]. eauto. }
  split; [intros d t; apply Hfin|]. split; [intros d t; apply Hfin|]. auto.
Qed.

(** C6.  A row of the engine's output is flagged exactly when the delta of
    one of its counters holds a strictly negative value (a missing delta is
    not negative), and the count the engine returns is the number of flagged
    rows. *)
Theorem add_metrics_anomaly_flag (df : list Row) :
  (forall m, In m (fst (add_metrics df)) ->
     (is_anomaly_negative_diff m = true
      <-> negative (delta_plays m) \/ negative (delta_listeners m)))
  /\ ~ negative NaN
  /\ snd (add_metrics df)
     = List.length (filter is_anomaly_negative_diff (fst (add_metrics df))).
Proof.
  split; [|split].
  - intros m Hin. apply add_metrics_form in Hin. destruct Hin as [r [prev ->]].
    simpl. now rewrite orb_true_iff, !flt0_negative.
  - simpl. tauto.
  - destruct df as [|r0 df]; [reflexivity|]. simpl. apply sum_bool_map.
Qed.

(** ** The aggregator *)

Lemma group_eqb_eq (g h : string * string) : group_eqb g h = true <-> g = h.
Proof.
  destruct g as [a b], h as [c d]. unfold group_eqb. simpl.
  rewrite andb_true_iff, !String.eqb_eq. split; [intros [-> ->]|intros [= -> ->]]; auto.
Qed.

Lemma existsb_group_eqb (g : string * string) (l : list (string * string)) :
  existsb (group_eqb g) l = true <-> In g l.
Proof.
  rewrite existsb_exists. split.
  - intros [h [Hin Hh]]. apply group_eqb_eq in Hh. now subst.
  - intros Hin. exists g. split; [assumption|now apply group_eqb_eq].
Qed.

Lemma unique_In (g : string * string) (l : list (string * string)) :
  In g (unique l) <-> In g l.
Proof.
  induction l as [|h l IH]; simpl; [tauto|].
  destruct (existsb (group_eqb h) l) eqn:Hex; simpl; rewrite IH; [|tauto].
  apply existsb_group_eqb in Hex. split; [tauto|]. intros [<-|Hin]; assumption.
Qed.

Lemma unique_NoDup (l : list (string * string)) : NoDup (unique l).
Proof.
  induction l as [|h l IH]; simpl; [constructor|].
  destruct (existsb (group_eqb h) l) eqn:Hex; [exact IH|].
  constructor; [|exact IH]. rewrite unique_In, <- existsb_group_eqb. congruence.
Qed.

Lemma group_keys_In (df : list MetricRow) (g : string * string) :
  In g (group_keys df) <-> In g (map (fun m : MetricRow => group_of m) df).
Proof. unfold group_keys. now rewrite sort_values_In, unique_In. Qed.

Lemma group_keys_NoDup (df : list MetricRow) : NoDup (group_keys df).
Proof.
  unfold group_keys. eapply Permutation_NoDup; [|apply unique_NoDup].
  symmetry. apply sort_values_perm.
Qed.

Section Aggregator.
Context {pd : Pandas}.

Lemma build_summary_table_fold (df : list MetricRow) (keys : list (string * string))
    (acc : list SummaryRecord * list (string * nat)) :
  fst (fold_left
         (fun acc g =>
            match summarize_group df g with
            | Some s =>
                (fst acc ++ [s],
                 dict_add (fst g) (num_anomalies_negative_diff s) (snd acc))
            | None => acc
            end) keys acc)
  = fst acc ++ flat_map (summary_list df) keys.
Proof.
  revert acc. induction keys as [|g keys IH]; intros acc; simpl.
  - now rewrite app_nil_r.
  - rewrite IH. unfold summary_list at 2.
    destruct (summarize_group df g); simpl; [now rewrite <- app_assoc|reflexivity].
Qed.

Lemma build_summary_table_rows (df : list MetricRow) :
  fst (build_summary_table df) = flat_map (summary_list df) (group_keys df).
Proof.
  destruct df as [|m df]; [reflexivity|].
  unfold build_summary_table. now rewrite build_summary_table_fold.
Qed.

Lemma group_rows_perm (df : list MetricRow) (g : string * string) :
  Permutation (group_rows df g) (filter (in_group g) df).
Proof. apply sort_values_quick_perm. Qed.

Lemma group_rows_nonempty (df : list MetricRow) (g : string * string) :
  In g (map (fun m : MetricRow => group_of m) df) -> group_rows df g <> [].
Proof.
  intros Hin Hnil. apply in_map_iff in Hin. destruct Hin as [m [Hg Hm]].
  assert (Hmg : In m (group_rows df g)).
  { apply sort_values_quick_In, filter_In. split; [assumption|].
    unfold in_group. now apply group_eqb_eq. }
  rewrite Hnil in Hmg. contradiction.
Qed.

Lemma summarize_group_some (df : list MetricRow) (g : string * string) :
  In g (map (fun m : MetricRow => group_of m) df) ->
  exists first, summarize_group df g
                = Some (summary_of g first (last (group_rows df g) first) (group_rows df g)).
Proof.
  intros Hin. apply group_rows_nonempty in Hin. unfold summarize_group.
  fold (group_rows df g). destruct (group_rows df g) as [|first rows]; [congruence|].
  now exists first.
Qed.

Lemma summary_list_group (df : list MetricRow) (g : string * string) (s : SummaryRecord) :
  In s (summary_list df g) -> summary_group s = g.
Proof.
  unfold summary_list, summarize_group.
  destruct (sort_values_quick metric_ts_leb (filter (in_group g) df)); simpl; [tauto|].
  intros [<-|[]]. now destruct g.
Qed.

Lemma flat_map_filter_single {A B : Type} (f : A -> list B) (p : A -> B -> bool)
    (l : list A) (a : A) :
  NoDup l -> In a l ->
  (forall x y, In y (f x) -> p a y = true -> x = a) ->
  (forall y, In y (f a) -> p a y = true) ->
  filter (p a) (flat_map f l) = f a.
Proof.
  intros Hnd Hin Hother Hself.
  assert (Hrest : forall l', ~ In a l' -> filter (p a) (flat_map f l') = []).
  { intros l' Hnot. apply filter_none, Forall_forall. intros y Hy.
    apply in_flat_map in Hy. destruct Hy as [x [Hx Hy]].
    destruct (p a y) eqn:Hp; [|reflexivity].
    apply (Hother x y Hy) in Hp. subst. contradiction. }
  induction l as [|x l IH]; [contradiction|].
  inversion Hnd as [|? ? Hnotin Hnd']; subst. simpl. rewrite filter_app.
  destruct Hin as [->|Hin].
  - rewrite (Hrest l Hnotin), app_nil_r. apply filter_all, Forall_forall, Hself.
  - rewrite (IH Hnd' Hin).
    assert (Hx : filter (p a) (f x) = []); [|now rewrite Hx].
    apply filter_none, Forall_forall. intros y Hy.
    destruct (p a y) eqn:Hp; [|reflexivity].
    apply (Hother x y Hy) in Hp. subst. contradiction.
Qed.

(** The table has one row for each song of the frame. *)
Lemma build_summary_table_group (df : list MetricRow) (g : string * string) :
  In g (map (fun m : MetricRow => group_of m) df) ->
  filter (fun s => group_eqb (summary_group s) g) (fst (build_summary_table df))
  = summary_list df g.
Proof.
  intros Hin. rewrite build_summary_table_rows.
  apply (flat_map_filter_single (summary_list df)
           (fun g s => group_eqb (summary_group s) g)).
  - apply group_keys_NoDup.
  - now apply group_keys_In.
  - intros x y Hy Hp. apply summary_list_group in Hy. apply group_eqb_eq in Hp. congruence.
  - intros y Hy. apply summary_list_group in Hy. now apply group_eqb_eq.
Qed.

(** [dropna] keeps the cells that hold a value, and only those. *)
Lemma dropna_present (l : list (option float64)) :
  map Some (dropna l) = filter rate_present l.
Proof.
  unfold dropna. induction l as [|[x|] l IH]; simpl; [reflexivity| |exact IH].
  destruct (notna x); simpl; now rewrite IH.
Qed.

Lemma dropna_none (l : list (option float64)) :
  Forall (fun c => rate_present c = false) l -> dropna l = [].
Proof.
  intros Hl. pose proof (dropna_present l) as Hp. rewrite (filter_none _ _ Hl) in Hp.
  destruct (dropna l); [reflexivity|discriminate].
Qed.

Lemma fsum_finite (qs : list Q) (a : Q) :
  exists b, fold_left fadd (map Finite qs) (Finite a) = Finite b
            /\ (b == a + Qsum qs)%Q.
Proof.
  revert a. induction qs as [|q qs IH]; intros a; cbn [map fold_left Qsum fold_right].
  - exists a. split; [reflexivity|ring].
  - cbn [fadd]. destruct (IH (Qred (a + q))) as [b [Hb Hq]].
    exists b. split; [exact Hb|]. rewrite Hq, Qred_correct. unfold Qsum. ring.
Qed.

(** The mean of finite values is their sum over their number. *)
Lemma mean_finite (qs : list Q) :
  qs <> [] ->
  exists q, mean (map Finite qs) = Finite q
            /\ (q == Qsum qs / inject_Z (Z.of_nat (List.length qs)))%Q.
Proof.
  intros Hne. destruct qs as [|q0 qs]; [congruence|].
  unfold mean. cbn [map]. unfold fsum.
  change (Finite q0 :: map Finite qs) with (map Finite (q0 :: qs)).
  destruct (fsum_finite (q0 :: qs) 0) as [b [-> Hb]].
  rewrite length_map.
  assert (Hpos : (0 < inject_Z (Z.of_nat (List.length (q0 :: qs))))%Q).
  { change 0%Q with (inject_Z 0). rewrite <- Zlt_Qlt. simpl List.length. lia. }
  destruct (fdiv_finite b _ Hpos) as [q [-> Hq]].
  exists q. split; [reflexivity|]. rewrite Hq, Hb. field.
  intros Hz. rewrite Hz in Hpos. now apply Qlt_irrefl in Hpos.
Qed.

(** C8.  For every song of the frame the table has exactly one row.  Its
    average rates are the mean of the rate cells of the song's rows that
    hold a value (for finite values: their sum over their number), and NaN,
    not zero, when no row of the song has one; its number of points is the
    number of rows of the song and its number of anomalies the number of
    flagged rows of the song. *)
Theorem summary_consistency (df : list MetricRow) (g : string * string) :
  In g (map (fun m : MetricRow => group_of m) df) ->
  exists s : SummaryRecord,
    filter (fun s => group_eqb (summary_group s) g) (fst (build_summary_table df)) = [s]
    /\ Permutation (group_rows df g) (filter (in_group g) df)
    /\ avg_rate_plays_per_min s
       = mean (dropna (map rate_plays_per_min (group_rows df g)))
    /\ avg_rate_listeners_per_min s
       = mean (dropna (map rate_listeners_per_min (group_rows df g)))
    /\ (forall rate : MetricRow -> option float64,
          map Some (dropna (map rate (group_rows df g)))
          = filter rate_present (map rate (group_rows df g)))
    /\ (forall rate : MetricRow -> option float64,
          (forall m, In m (filter (in_group g) df) -> rate_present (rate m) = false) ->
          mean (dropna (map rate (group_rows df g))) = NaN)
    /\ (forall (rate : MetricRow -> option float64) (qs : list Q),
          dropna (map rate (group_rows df g)) = map Finite qs -> qs <> [] ->
          exists q, mean (dropna (map rate (group_rows df g))) = Finite q
                    /\ (q == Qsum qs / inject_Z (Z.of_nat (List.length qs)))%Q)
    /\ num_points s = List.length (filter (in_group g) df)
    /\ num_anomalies_negative_diff s
       = List.length (filter is_anomaly_negative_diff (filter (in_group g) df)).
Proof.
  intros Hin. destruct (summarize_group_some df g Hin) as [first Hs].
  eexists. split.
  { rewrite (build_summary_table_group df g Hin). unfold summary_list.
    rewrite Hs. reflexivity. }
  split; [apply group_rows_perm|]. split; [reflexivity|]. split; [reflexivity|].
  split; [intros rate; apply dropna_present|].
  split.
  { intros rate Hnone. rewrite dropna_none; [reflexivity|].
    apply Forall_forall. intros c Hc. apply in_map_iff in Hc.
    destruct Hc as [m [<- Hm]]. apply Hnone.
    eapply Permutation_in; [apply group_rows_perm|exact Hm]. }
  split.
  { intros rate qs -> Hne. now apply mean_finite. }
  split.
  { simpl. apply Permutation_length, group_rows_perm. }
  simpl. rewrite sum_bool_map.
  apply Permutation_length, Permutation_filter_eq, group_rows_perm.
Qed.

Lemma or0_notna (x : float64) : or0 x = NaN <-> x = NaN.
Proof.
  unfold or0. destruct x as [q|s|]; simpl; try tauto.
  destruct (Qeq_bool q 0); split; discriminate.
Qed.

Lemma or0_finite (a : Q) : exists a', or0 (Finite a) = Finite a' /\ (a' == a)%Q.
Proof.
  unfold or0. simpl. destruct (Qeq_bool a 0) eqn:Hz.
  - exists 0%Q. split; [reflexivity|]. apply Qeq_bool_iff in Hz. now rewrite Hz.
  - exists a. split; reflexivity.
Qed.

Lemma net_change_cases (last first : float64) :
  (first = NaN \/ last = NaN -> fsub (or0 last) (or0 first) = NaN)
  /\ (forall a b, first = Finite a -> last = Finite b ->
        exists q, fsub (or0 last) (or0 first) = Finite q /\ (q == b - a)%Q).
Proof.
  split.
  - intros [->| ->]; [|reflexivity].
    unfold fsub. simpl. now destruct (or0 last).
  - intros a b -> ->.
    destruct (or0_finite a) as [a' [-> Ha]]. destruct (or0_finite b) as [b' [-> Hb]].
    unfold fsub. cbn [fneg fadd]. eexists. split; [reflexivity|].
    rewrite !Qred_correct, Ha, Hb. ring.
Qed.

Lemma build_summary_table_In (df : list MetricRow) (s : SummaryRecord) :
  In s (fst (build_summary_table df)) ->
  exists g first last rows, s = summary_of g first last rows.
Proof.
  rewrite build_summary_table_rows, in_flat_map. intros [g [_ Hs]].
  unfold summary_list, summarize_group in Hs.
  destruct (sort_values_quick metric_ts_leb (filter (in_group g) df)) as [|first rows];
    simpl in Hs; [tauto|].
  destruct Hs as [<-|[]]. eauto.
Qed.

(** C2, as the code has it.  In every row of the table the net change of a
    counter is the last value minus the first when both are finite, and is
    missing (NaN), not the other endpoint, as soon as one endpoint is
    missing.  In the frame whose first snapshot lacks [total_plays], the
    summary has first NaN, last 150 and net NaN; in the frame with plays
    100, 120, 150 it has first 100, last 150, net 50 and three points. *)
Theorem net_change_endpoints (df : list MetricRow) :
  Forall (fun s : SummaryRecord =>
            (first_total_plays s = NaN \/ last_total_plays s = NaN -> net_plays s = NaN)
            /\ (first_total_listeners s = NaN \/ last_total_listeners s = NaN ->
                net_listeners s = NaN)
            /\ (forall a b, first_total_plays s = Finite a -> last_total_plays s = Finite b ->
                  exists q, net_plays s = Finite q /\ (q == b - a)%Q)
            /\ (forall a b, first_total_listeners s = Finite a ->
                  last_total_listeners s = Finite b ->
                  exists q, net_listeners s = Finite q /\ (q == b - a)%Q))
         (fst (build_summary_table df))
  /\ map (fun s => (first_total_plays s, last_total_plays s, net_plays s))
         (Sample.summaries_of (pd := iso_pandas) Sample.missing_first_plays)
     = [(NaN, Finite 150, NaN)]
  /\ map (fun s => (first_total_plays s, last_total_plays s, net_plays s, num_points s))
         (Sample.summaries_of (pd := iso_pandas) Sample.three_points)
     = [(Finite 100, Finite 150, Finite 50, 3)].
Proof.
  split; [|split; vm_compute; reflexivity].
  apply Forall_forall. intros s Hs. apply build_summary_table_In in Hs.
  destruct Hs as (g & first & last & rows & ->). simpl.
  destruct (net_change_cases (total_plays last) (total_plays first)) as [Hp1 Hp2].
  destruct (net_change_cases (total_listeners last) (total_listeners first)) as [Hl1 Hl2].
  repeat split; assumption.
Qed.

End Aggregator.

(** ** The statements at the sample frames *)

Ltac not_in_list :=
  let H := fresh in
  simpl; intro H;
  repeat match type of H with
         | _ \/ _ => destruct H as [H|H]; [discriminate H|]
         end;
  exact H.

(** On the key column of the frame of thirty-two colliding snapshots and a
    later one, the positions are those of the quicksort; they end with the
    positions 15 and 32. *)
Lemma argsort_thirty_two_and_one :
  @argsort iso_pandas Row (key_leb (pd := iso_pandas))
          (Sample.with_timestamps (pd := iso_pandas) Sample.thirty_two_and_one)
  = Iso.npy_argsort (key_leb (pd := iso_pandas))
                    (Sample.with_timestamps (pd := iso_pandas) Sample.thirty_two_and_one)
  /\ skipn 31 (@argsort iso_pandas Row (key_leb (pd := iso_pandas))
                        (Sample.with_timestamps (pd := iso_pandas) Sample.thirty_two_and_one))
     = [15; 32].
Proof. split; vm_compute; reflexivity. Qed.

(** With sixteen colliding snapshots (plays 100 to 115) and a later one, the
    snapshot kept is the one with plays 107. *)
Lemma normalize_sixteen_and_one :
  exists out : list Row,
    normalize (pd := iso_pandas) Sample.sixteen_and_one = Some (out, 15)
    /\ map (fun r : Row => total_plays r) out = [Finite 107; Finite 200].
Proof. eexists. split; vm_compute; reflexivity. Qed.

(** C1, as the code has it.  Of the records that collide on the key
    [platform::song_id::timestamp] the normaliser keeps exactly one, a
    record of the input with that key, and the collision count it returns
    is the number of records the duplicate-key step dropped; two records
    with one key leave one of the two and a count of 1.  The record kept is
    the last of the frame sorted by key, and that sort (line 90) is the
    quicksort of the interface, which does not keep colliding records in
    input order: of thirty-two snapshots of one minute with plays 100 to
    131, followed by a later snapshot, the result holds the one with plays
    115, not the last one with plays 131, next to a count of 31. *)
Theorem normalize_collision_survivor :
  (forall (pd : Pandas) (df_raw : list RawRecord) (cols : list Columns),
      _ensure_columns df_raw = Some cols ->
      exists (out : list Row) (n : nat),
        normalize df_raw = Some (out, n)
        /\ (forall k, filter (has_key key k) (_build_timestamp cols) <> [] ->
              exists r, filter (has_key key k) (dedup (_build_timestamp cols)) = [r]
                        /\ In r (_build_timestamp cols))
        /\ n + List.length (dedup (_build_timestamp cols)) = List.length df_raw
        /\ (forall a b, _build_timestamp cols = [a; b] -> key a = key b ->
              n = 1 /\ exists r, dedup (_build_timestamp cols) = [r]
                                 /\ (r = a \/ r = b) /\ out = filter notna_ts [r]))
  /\ exists (cols : list Columns) (out : list Row),
       _ensure_columns (pd := iso_pandas) Sample.thirty_two_and_one = Some cols
       /\ normalize (pd := iso_pandas) Sample.thirty_two_and_one = Some (out, 31)
       /\ map (fun r : Row => total_plays r)
              (last_row (filter (has_key (key (pd := iso_pandas)) "GENIE::1::2025-12-17 10:00:00")
                                (_build_timestamp (pd := iso_pandas) cols)))
          = [Finite 131]
       /\ map (fun r : Row => total_plays r)
              (filter (has_key (key (pd := iso_pandas)) "GENIE::1::2025-12-17 10:00:00") out)
          = [Finite 115]
       /\ map (fun r : Row => total_plays r) out = [Finite 115; Finite 200].
Proof.
  split.
  - intros pd df_raw cols Hcols. rewrite normalize_eq, Hcols. cbv zeta.
    eexists _, _. split; [reflexivity|].
    set (df := _build_timestamp cols).
    assert (Hcount : sum_bool (duplicated key df) + List.length (dedup df)
                     = List.length df_raw).
    { rewrite dedup_count. unfold df. rewrite build_timestamp_length.
      unfold _ensure_columns in Hcols. now apply traverse_length in Hcols. }
    split; [|split; [exact Hcount|]].
    + intros k Hk. pose proof (dedup_key_once k df) as Hone.
      pose proof (dedup_key_kept k df Hk) as Hkept.
      destruct (filter (has_key key k) (dedup df)) as [|r [|r' l]] eqn:Hf;
        [congruence| |cbn in Hone; lia].
      exists r. split; [reflexivity|].
      assert (Hr : In r (filter (has_key key k) (dedup df))) by (rewrite Hf; now left).
      apply filter_In in Hr as [Hr _]. now apply dedup_In in Hr.
    + intros a b Hab Hkey.
      assert (Hn : sum_bool (duplicated key df) = 1).
      { rewrite Hab. unfold duplicated. cbn. unfold has_key.
        rewrite Hkey, String.eqb_refl. reflexivity. }
      split; [exact Hn|].
      assert (Hd : exists r, dedup df = [r] /\ (r = a \/ r = b)).
      { unfold dedup.
        pose proof (sort_values_quick_perm key_leb df) as Hp. rewrite Hab in Hp at 2.
        symmetry in Hp. apply Permutation_length_2_inv in Hp as [-> | ->];
          cbn; unfold has_key; rewrite ?Hkey, String.eqb_refl; cbn; eauto. }
      destruct Hd as (r & Hd & Hr). exists r. rewrite Hd. repeat split; assumption.
  - eexists _, _. split; [vm_compute; reflexivity|].
    split; [vm_compute; reflexivity|]. repeat split; vm_compute; reflexivity.
Qed.

Lemma normalize_sorted_witness :
  exists (out : list Row) (n : nat),
    normalize (pd := iso_pandas) Sample.three_points = Some (out, n)
    /\ StronglySorted row_le out.
Proof.
  edestruct (normalize_sorted (pd := iso_pandas) Sample.three_points)
    as (out & n & Hn & Hs & _); [vm_compute; reflexivity|].
  exists out, n. split; assumption.
Defined.

Lemma normalize_idempotent_witness :
  normalize (pd := iso_pandas)
            (map as_raw (Sample.normalized (pd := iso_pandas) Sample.three_points))
  = Some (Sample.normalized (pd := iso_pandas) Sample.three_points, 0).
Proof.
  apply (normalize_idempotent (pd := iso_pandas));
    set (rows := Sample.normalized (pd := iso_pandas) Sample.three_points);
    vm_compute in rows; subst rows.
  - vm_compute. reflexivity.
  - repeat (constructor; [split; [|split]; vm_compute; reflexivity|]). constructor.
  - cbn [map]. repeat (constructor; [vm_compute; not_in_list|]). constructor.
  - repeat constructor; vm_compute; reflexivity.
Defined.

(** The normaliser reads the dates of its own result again, and may read
    them otherwise: of two snapshots dated [13/01/2025] and [02/01/2025] the
    first fixes the day before the month, and the result (2 January, then
    13 January) has valid timestamps, distinct keys and sorted rows; read
    again, its first date fixes the month before the day, so that
    [02/01/2025] is 1 February and [13/01/2025] no date: one row is left. *)
Lemma normalize_reads_dates_again :
  map (fun r : Row => date r) (Sample.normalized (pd := iso_pandas) Sample.day_first)
  = ["02/01/2025"; "13/01/2025"]%string
  /\ map timestamp (Sample.normalized (pd := iso_pandas) Sample.day_first)
     = [Some 1735812000000000000%Z; Some 1736762400000000000%Z]
  /\ Forall (fun r : Row => notna_ts r = true /\ int64_time r)
            (Sample.normalized (pd := iso_pandas) Sample.day_first)
  /\ NoDup (map (key (pd := iso_pandas)) (Sample.normalized (pd := iso_pandas) Sample.day_first))
  /\ Sorted row_le (Sample.normalized (pd := iso_pandas) Sample.day_first)
  /\ (exists r : Row,
        normalize (pd := iso_pandas)
                  (map as_raw (Sample.normalized (pd := iso_pandas) Sample.day_first))
        = Some ([r], 0)
        /\ date r = "02/01/2025"%string
        /\ timestamp r = Some 1738404000000000000%Z)
  /\ normalize (pd := iso_pandas)
               (map as_raw (Sample.normalized (pd := iso_pandas) Sample.day_first))
     <> Some (Sample.normalized (pd := iso_pandas) Sample.day_first, 0).
Proof.
  set (rows := Sample.normalized (pd := iso_pandas) Sample.day_first).
  vm_compute in rows. subst rows.
  split; [reflexivity|]. split; [reflexivity|].
  split; [repeat (constructor; [split; [|split]; vm_compute; reflexivity|]); constructor|].
  split; [cbn [map]; repeat (constructor; [vm_compute; not_in_list|]); constructor|].
  split; [repeat constructor; vm_compute; reflexivity|].
  split; [eexists; split; [vm_compute; reflexivity|split; reflexivity]|].
  vm_compute. discriminate.
Qed.

Lemma normalize_unparsable_collide_witness :
  exists (out : list Row) (n removed : nat),
    normalize_logged (pd := iso_pandas) Sample.bad_dates = Some (out, n, removed)
    /\ 2 <= n /\ removed < 3.
Proof.
  edestruct (fun cols => normalize_unparsable_collide (pd := iso_pandas)
                           Sample.bad_dates cols "GENIE" "1")
    as (out & n & removed & Hn & _ & Hk & _ & _ & Hr);
    [vm_compute; reflexivity|vm_compute; lia|].
  exists out, n, removed. split; [exact Hn|]. split; [exact Hk|exact Hr].
Defined.

Lemma pipeline_degrades_witness :
  exists (out : list Row) (n : nat),
    normalize (pd := iso_pandas) Sample.bad_date = Some (out, n).
Proof.
  edestruct (pipeline_degrades (pd := iso_pandas) Sample.bad_date)
    as (cols & out & n & _ & _ & Hn & _).
  - repeat (constructor; [split; exact I|]). constructor.
  - exists out, n. exact Hn.
Defined.


Lemma add_metrics_rate_guard_witness :
  exists m : MetricRow,
    In m (Sample.metrics_of (pd := iso_pandas) Sample.three_points)
    /\ (rate_present (rate_plays_per_min m) = true
        <-> positive (delta_minutes m) /\ notna (delta_plays m) = true).
Proof.
  assert (Hm : exists m, nth_error (Sample.metrics_of (pd := iso_pandas) Sample.three_points) 1 = Some m)
    by (eexists; vm_compute; reflexivity).
  destruct Hm as [m Hm]. exists m. apply nth_error_In in Hm.
  split; [exact Hm|]. apply (add_metrics_rate_guard _ m Hm).
Defined.

Lemma summary_consistency_witness :
  exists s : SummaryRecord,
    filter (fun s => group_eqb (summary_group s) ("GENIE", "1"))
           (fst (build_summary_table (pd := iso_pandas)
                   (Sample.metrics_of (pd := iso_pandas) Sample.three_points))) = [s]
    /\ num_points s
       = List.length (filter (in_group ("GENIE", "1"))
                             (Sample.metrics_of (pd := iso_pandas) Sample.three_points)).
Proof.
  edestruct (summary_consistency (pd := iso_pandas)
               (Sample.metrics_of (pd := iso_pandas) Sample.three_points) ("GENIE", "1"))
    as (s & Hs & _ & _ & _ & _ & _ & _ & Hn & _).
  - vm_compute. left. reflexivity.
  - exists s. split; [exact Hs|exact Hn].
Defined.

(** The inputs on which the normaliser does not behave as a reading of
    "empty exactly on empty input, never a fault" would have it. *)

(** A frame that is not empty can give an empty result with zero collisions. *)
Lemma normalize_empty_result_nonempty_input :
  Sample.bad_date <> []
  /\ normalize (pd := iso_pandas) Sample.bad_date = Some ([], 0).
Proof. split; [discriminate|vm_compute; reflexivity]. Qed.

(** An hour that reads as infinite makes [astype(int)] raise. *)
Lemma normalize_infinite_hour_raises :
  normalize (pd := iso_pandas) Sample.infinite_hour = None.
Proof. vm_compute. reflexivity. Qed.

(** * Further properties of the pipeline *)

(** ** The normaliser: accounting, provenance, input order *)

Section NormalizerMore.
Context {pd : Pandas}.

(** Every input record is accounted for: it is in the result, or it was
    dropped as a duplicate key, or it was removed for a bad timestamp. *)
Theorem normalize_accounts_for_every_record (df_raw : list RawRecord)
    (out : list Row) (n removed : nat) :
  normalize_logged df_raw = Some (out, n, removed) ->
  List.length out + n + removed = List.length df_raw.
Proof.
  rewrite normalize_logged_eq.
  destruct (_ensure_columns df_raw) as [cols|] eqn:Hcols; [|discriminate].
  rewrite normalize_frame_eq. intros Heq. injection Heq as <- <- <-.
  apply traverse_length in Hcols.
  pose proof (dedup_count (_build_timestamp cols)) as Hcount.
  pose proof (filter_split_length notna_ts (dedup (_build_timestamp cols))) as Hsplit.
  rewrite (sort_values_filter_length row_leb notna_ts).
  rewrite build_timestamp_length in Hcount.
  change (fun x : Row => negb (notna_ts x)) with isna_ts in Hsplit. lia.
Qed.

(** The normaliser invents nothing: each row of the result is the coercion
    of an input record, with the timestamp that the column of timestamps
    built from the dates, hours and minutes has at that record's position,
    and that timestamp is valid. *)
Theorem normalize_rows_come_from_input (df_raw : list RawRecord)
    (out : list Row) (n : nat) (r : Row) :
  normalize df_raw = Some (out, n) -> In r out ->
  exists (df : list Columns) (i : nat) (raw : RawRecord),
    _ensure_columns df_raw = Some df
    /\ In raw df_raw
    /\ nth_error df_raw i = Some raw
    /\ ensure_row raw = Some (cols r)
    /\ nth_error (timestamps df) i = Some (timestamp r)
    /\ exists ns, timestamp r = Some ns.
Proof.
  rewrite normalize_eq.
  destruct (_ensure_columns df_raw) as [df|] eqn:Hcols; [|discriminate].
  cbv zeta. intros Heq Hr. injection Heq as <- _.
  apply filter_In in Hr. destruct Hr as [Hr Hts].
  apply sort_values_In, dedup_In, In_nth_error in Hr. destruct Hr as [i Hi].
  apply build_timestamp_nth in Hi as [Hc Ht].
  destruct (traverse_nth _ _ _ i _ Hcols Hc) as [raw [Hraw Hens]].
  exists df, i, raw. split; [reflexivity|]. split; [eapply nth_error_In, Hraw|].
  repeat split; try assumption.
  unfold notna_ts in Hts. destruct (timestamp r); [eauto|discriminate].
Qed.


End NormalizerMore.

Lemma normalize_accounts_for_every_record_witness :
  exists (out : list Row) (n removed : nat),
    normalize_logged (pd := iso_pandas) Sample.bad_dates = Some (out, n, removed)
    /\ List.length out + n + removed = 4.
Proof.
  assert (H : exists x, normalize_logged (pd := iso_pandas) Sample.bad_dates = Some x)
    by (eexists; vm_compute; reflexivity).
  destruct H as [[[out n] removed] H]. exists out, n, removed. split; [exact H|].
  apply (normalize_accounts_for_every_record (pd := iso_pandas) Sample.bad_dates _ _ _ H).
Defined.

Lemma normalize_rows_come_from_input_witness :
  exists (r : Row) (raw : RawRecord),
    In r (Sample.normalized (pd := iso_pandas) Sample.three_points)
    /\ In raw Sample.three_points
    /\ ensure_row (pd := iso_pandas) raw = Some (cols r).
Proof.
  assert (H : exists out n, normalize (pd := iso_pandas) Sample.three_points = Some (out, n)
                            /\ exists r, nth_error out 0 = Some r).
  { eexists _, _. split; [vm_compute; reflexivity|]. eexists. reflexivity. }
  destruct H as (out & n & Hn & r & Hr). apply nth_error_In in Hr.
  destruct (normalize_rows_come_from_input (pd := iso_pandas) _ _ _ r Hn Hr)
    as (df & i & raw & _ & Hraw & _ & Hens & _).
  exists r, raw. split; [|split; assumption].
  unfold Sample.normalized. rewrite Hn. exact Hr.
Defined.


(** ** The metrics engine: rows kept, elapsed time on a normalised frame *)

Lemma metric_columns_rows (seen df : list Row) :
  map row (metric_columns seen df) = df.
Proof.
  revert seen. induction df as [|r df IH]; intros seen; simpl; [reflexivity|].
  now rewrite IH.
Qed.

Lemma add_metrics_rows (df : list Row) :
  map row (fst (add_metrics df)) = sort_values row_leb df.
Proof.
  destruct df as [|r0 df]; [reflexivity|]. apply metric_columns_rows.
Qed.

Lemma add_metrics_count (df : list Row) :
  snd (add_metrics df)
  = List.length (filter is_anomaly_negative_diff (fst (add_metrics df))).
Proof.
  destruct df as [|r0 df]; [reflexivity|]. simpl. apply sum_bool_map.
Qed.

Lemma add_metrics_length (df : list Row) :
  List.length (fst (add_metrics df)) = List.length df.
Proof.
  rewrite <- (length_map row), add_metrics_rows. apply sort_values_length.
Qed.

(** The engine drops, adds and alters no record: its rows are the input
    rows, sorted by platform, song and timestamp; a sorted frame keeps its
    order. *)
Theorem add_metrics_keeps_rows (df : list Row) :
  Permutation (map row (fst (add_metrics df))) df
  /\ List.length (fst (add_metrics df)) = List.length df
  /\ StronglySorted row_le (map row (fst (add_metrics df)))
  /\ (StronglySorted row_le df -> map row (fst (add_metrics df)) = df).
Proof.
  rewrite add_metrics_rows. split; [apply sort_values_perm|]. split.
  - rewrite <- (length_map row), add_metrics_rows. apply sort_values_length.
  - split; [apply (sort_values_sorted row_leb row_leb_total row_leb_trans)|].
    apply sort_values_id.
Qed.

Section MetricsOnNormalized.
Context {pd : Pandas}.

(** Two rows of one song in the normalised frame have increasing timestamps. *)
Lemma normalized_strict (df : list Row) (i j : nat) (a b : Row) :
  let out := filter notna_ts (sort_values row_leb (dedup df)) in
  i < j -> nth_error out i = Some a -> nth_error out j = Some b ->
  same_group a b = true ->
  exists x y, timestamp a = Some x /\ timestamp b = Some y /\ (x < y)%Z.
Proof.
  cbv zeta. intros Hij Ha Hb Hg.
  pose proof (StronglySorted_nth_error row_le _ i j a b
                (normalized_sorted _) Hij Ha Hb) as Hle.
  pose proof (NoDup_map_nth_error key _ i j a b (normalized_NoDup _) Hij Ha Hb) as Hne.
  unfold row_le in Hle. rewrite (row_leb_same_group a b Hg) in Hle.
  apply same_group_true in Hg. destruct Hg as [Hp Hs].
  apply nth_error_In, filter_In in Ha. apply nth_error_In, filter_In in Hb.
  destruct Ha as [_ Ha], Hb as [_ Hb]. unfold notna_ts in Ha, Hb.
  destruct (timestamp a) as [x|] eqn:Hta; [|discriminate].
  destruct (timestamp b) as [y|] eqn:Htb; [|discriminate].
  simpl in Hle. apply Z.leb_le in Hle. exists x, y. repeat split.
  destruct (Z.eq_dec x y) as [->|Hxy]; [|lia].
  exfalso. apply Hne. apply key_same; congruence.
Qed.

Lemma diff_minutes_positive (r p : Row) (x y : Z) :
  timestamp p = Some x -> timestamp r = Some y -> (x < y)%Z ->
  positive (diff_minutes r (Some p)).
Proof.
  intros Hp Hr Hxy. unfold diff_minutes. rewrite Hp, Hr. cbn [positive].
  rewrite Qred_correct. apply Qlt_shift_div_l.
  - reflexivity.
  - rewrite Qmult_0_l. change 0%Q with (inject_Z 0). rewrite <- Zlt_Qlt. lia.
Qed.

(** On the output of the normaliser the zero-interval guard never fires:
    between two consecutive rows of one song the elapsed minutes are
    positive, so a rate is present exactly when its delta is. *)
Theorem add_metrics_after_normalize (df_raw : list RawRecord) (rows : list Row) (n j : nat)
    (m p : MetricRow) :
  normalize df_raw = Some (rows, n) ->
  nth_error (fst (add_metrics rows)) (S j) = Some m ->
  nth_error (fst (add_metrics rows)) j = Some p ->
  same_group m p = true ->
  positive (delta_minutes m)
  /\ (rate_present (rate_plays_per_min m) = true <-> notna (delta_plays m) = true)
  /\ (rate_present (rate_listeners_per_min m) = true <-> notna (delta_listeners m) = true).
Proof.
  rewrite normalize_eq.
  destruct (_ensure_columns df_raw) as [cols|]; [|discriminate].
  cbv zeta. intros Heq. injection Heq as <- _.
  set (rows := filter notna_ts (sort_values row_leb (dedup (_build_timestamp cols)))).
  intros Hm Hp Hg.
  assert (Hrows : map row (fst (add_metrics rows)) = rows).
  { rewrite add_metrics_rows. apply sort_values_id, normalized_sorted. }
  assert (Hrm : nth_error rows (S j) = Some (row m))
    by (rewrite <- Hrows, nth_error_map, Hm; reflexivity).
  assert (Hrp : nth_error rows j = Some (row p))
    by (rewrite <- Hrows, nth_error_map, Hp; reflexivity).
  assert (Hg' : same_group p m = true).
  { apply same_group_true in Hg. apply same_group_true. intuition congruence. }
  destruct (normalized_strict _ j (S j) p m (Nat.lt_succ_diag_r j) Hrp Hrm Hg')
    as (x & y & Hx & Hy & Hxy).
  rewrite add_metrics_adjacent in Hm, Hp.
  destruct (adjacent_columns_next _ _ _ _ Hm) as [p' [Hp' Hform]].
  rewrite Hp in Hp'. injection Hp' as <-.
  simpl in Hform. rewrite Hg in Hform.
  pose proof (diff_minutes_positive m p x y Hx Hy Hxy) as Hpos.
  destruct (rate_per_min_guard m (Some (row p)) (diff_float total_plays m (Some (row p))))
    as (Hplays & _ & _).
  destruct (rate_per_min_guard m (Some (row p)) (diff_float total_listeners m (Some (row p))))
    as (Hlisteners & _ & _).
  rewrite Hform. simpl. split; [exact Hpos|]. tauto.
Qed.

End MetricsOnNormalized.

Lemma add_metrics_after_normalize_witness :
  exists m : MetricRow,
    nth_error (Sample.metrics_of (pd := iso_pandas) Sample.three_points) 2 = Some m
    /\ positive (delta_minutes m).
Proof.
  assert (Hn : exists n, normalize (pd := iso_pandas) Sample.three_points
                         = Some (Sample.normalized (pd := iso_pandas) Sample.three_points, n))
    by (eexists; vm_compute; reflexivity).
  destruct Hn as [n Hn].
  assert (Hm : exists m p,
             nth_error (fst (add_metrics (Sample.normalized (pd := iso_pandas) Sample.three_points))) 2 = Some m
             /\ nth_error (fst (add_metrics (Sample.normalized (pd := iso_pandas) Sample.three_points))) 1 = Some p
             /\ same_group m p = true).
  { eexists _, _. split; [vm_compute; reflexivity|].
    split; [vm_compute; reflexivity|vm_compute; reflexivity]. }
  destruct Hm as (m & p & Hm & Hp & Hg). exists m. split; [exact Hm|].
  apply (add_metrics_after_normalize (pd := iso_pandas) _ _ _ _ m p Hn Hm Hp Hg).
Defined.

(** ** The aggregator: order of the table, boundaries, totals *)

Lemma group_leb_total (g h : string * string) :
  group_leb g h = true \/ group_leb h g = true.
Proof.
  unfold group_leb. order_strings (fst g) (fst h); auto. apply String.leb_total.
Qed.

Lemma group_leb_trans (g h k : string * string) :
  group_leb g h = true -> group_leb h k = true -> group_leb g k = true.
Proof.
  unfold group_leb.
  destruct (String.compare (fst g) (fst h)) eqn:Hgh; try discriminate;
    destruct (String.compare (fst h) (fst k)) eqn:Hhk; try discriminate.
  - apply string_compare_eq in Hgh, Hhk. rewrite Hgh, Hhk, string_compare_refl.
    apply string_leb_trans.
  - apply string_compare_eq in Hgh. now rewrite Hgh, Hhk.
  - apply string_compare_eq in Hhk. now rewrite <- Hhk, Hgh.
  - now rewrite (string_compare_lt_trans _ _ _ Hgh Hhk).
Qed.

Section AggregatorMore.
Context {pd : Pandas}.

Lemma summary_list_single (df : list MetricRow) (g : string * string) :
  In g (group_keys df) ->
  exists first rest,
    group_rows df g = first :: rest
    /\ summary_list df g
       = [summary_of g first (last (first :: rest) first) (first :: rest)].
Proof.
  intros Hg. apply group_keys_In, group_rows_nonempty in Hg.
  unfold summary_list, summarize_group. fold (group_rows df g).
  destruct (group_rows df g) as [|first rest]; [congruence|]. eauto.
Qed.

Lemma flat_map_singletons {A B : Type} (f : A -> list B) (h : B -> A) (l : list A) :
  (forall a, In a l -> exists b, f a = [b] /\ h b = a) ->
  map h (flat_map f l) = l.
Proof.
  induction l as [|a l IH]; simpl; intros Hf; [reflexivity|].
  destruct (Hf a (or_introl eq_refl)) as [b [-> Hb]]. simpl.
  rewrite Hb, IH; [reflexivity|]. intros a' Ha'. apply Hf. now right.
Qed.

Lemma summary_table_groups (df : list MetricRow) :
  map summary_group (fst (build_summary_table df)) = group_keys df.
Proof.
  rewrite build_summary_table_rows. apply flat_map_singletons.
  intros g Hg. destruct (summary_list_single df g Hg) as (first & rest & _ & ->).
  eexists. split; [reflexivity|]. now destruct g.
Qed.

(** The table has one row for each song of the frame and no other row, in
    ascending order of platform and song. *)
Theorem summary_table_order (df : list MetricRow) :
  NoDup (map summary_group (fst (build_summary_table df)))
  /\ StronglySorted group_le (map summary_group (fst (build_summary_table df)))
  /\ (forall g, In g (map summary_group (fst (build_summary_table df)))
                <-> exists m : MetricRow, In m df /\ group_of m = g).
Proof.
  rewrite summary_table_groups. split; [apply group_keys_NoDup|]. split.
  - apply (sort_values_sorted group_leb group_leb_total group_leb_trans).
  - intros g. rewrite group_keys_In, in_map_iff. split.
    + intros [m [Hg Hm]]. eauto.
    + intros [m [Hm Hg]]. eauto.
Qed.

Lemma metric_ts_leb_total (a b : MetricRow) :
  metric_ts_leb a b = true \/ metric_ts_leb b a = true.
Proof. apply ts_leb_total. Qed.

Lemma metric_ts_leb_trans (a b c : MetricRow) :
  metric_ts_leb a b = true -> metric_ts_leb b c = true -> metric_ts_leb a c = true.
Proof. apply ts_leb_trans. Qed.

Lemma ts_leb_refl (a : option Z) : ts_leb a a = true.
Proof. destruct a; simpl; [apply Z.leb_refl|reflexivity]. Qed.

Lemma StronglySorted_last {A : Type} (R : A -> A -> Prop) (l : list A) (d x : A) :
  (forall a, R a a) -> StronglySorted R l -> In x l -> R x (last l d).
Proof.
  intros Hrefl Hs. revert x. induction Hs as [|a l Hs IH Ha]; intros x Hx; [contradiction|].
  destruct l as [|b l]; simpl.
  - destruct Hx as [<-|[]]. apply Hrefl.
  - destruct Hx as [<-|Hx]; [|now apply IH].
    rewrite Forall_forall in Ha. apply Ha.
    change (In (last (b :: l) d) (b :: l)).
    destruct (exists_last (l := b :: l)) as [l' [z Hz]]; [discriminate|].
    rewrite Hz, last_last. apply in_or_app. right. now left.
Qed.

Lemma build_summary_table_In_rows (df : list MetricRow) (s : SummaryRecord) :
  In s (fst (build_summary_table df)) ->
  exists g first rest,
    group_rows df g = first :: rest
    /\ s = summary_of g first (last (first :: rest) first) (first :: rest).
Proof.
  rewrite build_summary_table_rows, in_flat_map. intros [g [Hg Hs]].
  destruct (summary_list_single df g Hg) as (first & rest & Hrows & Hlist).
  rewrite Hlist in Hs. destruct Hs as [<-|[]]. eauto.
Qed.

(** In every row of the table the first and last timestamps bound the
    timestamps of the song's rows (a missing timestamp counting as latest),
    and both are timestamps of rows of the song. *)
Theorem summary_boundaries (df : list MetricRow) (s : SummaryRecord) :
  In s (fst (build_summary_table df)) ->
  (forall m : MetricRow, In m df -> group_of m = summary_group s ->
     ts_leb (first_timestamp s) (timestamp m) = true
     /\ ts_leb (timestamp m) (last_timestamp s) = true)
  /\ (exists m : MetricRow,
        In m df /\ group_of m = summary_group s
        /\ timestamp m = first_timestamp s /\ total_plays m = first_total_plays s)
  /\ (exists m : MetricRow,
        In m df /\ group_of m = summary_group s
        /\ timestamp m = last_timestamp s /\ total_plays m = last_total_plays s).
Proof.
  intros Hs. destruct (build_summary_table_In_rows df s Hs) as (g & first & rest & Hrows & ->).
  assert (Hsorted : StronglySorted (fun a b => metric_ts_leb a b = true) (first :: rest)).
  { rewrite <- Hrows.
    apply (sort_values_quick_sorted metric_ts_leb metric_ts_leb_total metric_ts_leb_trans). }
  assert (Hmem : forall m : MetricRow,
             In m (first :: rest) <-> In m df /\ group_of m = g).
  { intros m. rewrite <- Hrows. unfold group_rows.
    rewrite sort_values_quick_In, filter_In. unfold in_group. now rewrite group_eqb_eq. }
  assert (Hgroup : summary_group (summary_of g first (last (first :: rest) first)
                                             (first :: rest)) = g) by now destruct g.
  rewrite Hgroup. cbn [first_timestamp last_timestamp first_total_plays last_total_plays
                       summary_of].
  split; [|split].
  - intros m Hm Hg. assert (Hin : In m (first :: rest)) by now apply Hmem.
    split.
    + destruct Hin as [<-|Hin]; [apply ts_leb_refl|].
      inversion Hsorted as [|? ? _ Hfirst]; subst.
      rewrite Forall_forall in Hfirst. now apply Hfirst.
    + apply (StronglySorted_last (fun a b : MetricRow => metric_ts_leb a b = true));
        [intros a; apply ts_leb_refl|exact Hsorted|exact Hin].
  - exists first. destruct (proj1 (Hmem first) (or_introl eq_refl)). auto.
  - exists (last (first :: rest) first).
    assert (Hin : In (last (first :: rest) first) (first :: rest)).
    { destruct (exists_last (l := first :: rest)) as [l' [z Hz]]; [discriminate|].
      rewrite Hz, last_last. apply in_or_app. right. now left. }
    destruct (proj1 (Hmem _) Hin). auto.
Qed.

Lemma list_sum_map_add {A : Type} (f h : A -> nat) (l : list A) :
  list_sum (map (fun x => f x + h x) l) = list_sum (map f l) + list_sum (map h l).
Proof. induction l as [|x l IH]; simpl; lia. Qed.

Lemma list_sum_map_zero {A : Type} (f : A -> nat) (l : list A) :
  (forall x, In x l -> f x = 0) -> list_sum (map f l) = 0.
Proof.
  induction l as [|x l IH]; simpl; intros Hf; [reflexivity|].
  rewrite (Hf x), IH by auto. reflexivity.
Qed.

Lemma list_sum_map_ext {A : Type} (f h : A -> nat) (l : list A) :
  (forall x, In x l -> f x = h x) -> list_sum (map f l) = list_sum (map h l).
Proof.
  induction l as [|x l IH]; simpl; intros Hf; [reflexivity|].
  rewrite (Hf x), IH by auto. reflexivity.
Qed.

Lemma list_sum_indicator (a : string * string) (keys : list (string * string)) :
  NoDup keys -> In a keys ->
  list_sum (map (fun g => if group_eqb a g then 1 else 0) keys) = 1.
Proof.
  induction keys as [|g keys IH]; intros Hnd Hin; [contradiction|].
  inversion Hnd as [|? ? Hnotin Hnd']; subst. simpl.
  destruct Hin as [->|Hin].
  - rewrite (proj2 (group_eqb_eq a a) eq_refl).
    rewrite list_sum_map_zero; [reflexivity|].
    intros x Hx. destruct (group_eqb a x) eqn:Hax; [|reflexivity].
    apply group_eqb_eq in Hax. subst. contradiction.
  - destruct (group_eqb a g) eqn:Hag.
    + apply group_eqb_eq in Hag. subst. contradiction.
    + now apply IH.
Qed.

(** The songs split the rows of a frame: counted song by song, the rows
    that satisfy [q] are counted once each. *)
Lemma group_partition (q : MetricRow -> bool) (df : list MetricRow)
    (keys : list (string * string)) :
  NoDup keys ->
  (forall m : MetricRow, In m df -> q m = true -> In (group_of m) keys) ->
  list_sum (map (fun g => List.length (filter (fun m => (q m && in_group g m)%bool) df)) keys)
  = List.length (filter q df).
Proof.
  intros Hnd. induction df as [|m df IH]; intros Hcover.
  - simpl. apply list_sum_map_zero. reflexivity.
  - rewrite (list_sum_map_ext _
               (fun g => (if (q m && in_group g m)%bool then 1 else 0)
                         + List.length (filter (fun m => (q m && in_group g m)%bool) df))).
    2:{ intros g _. simpl. destruct (q m && in_group g m)%bool; reflexivity. }
    rewrite list_sum_map_add, IH by (intros m' Hm'; apply Hcover; now right).
    simpl. destruct (q m) eqn:Hq; simpl.
    + unfold in_group. rewrite list_sum_indicator; [reflexivity|assumption|].
      apply Hcover; [now left|assumption].
    + rewrite list_sum_map_zero; reflexivity.
Qed.

Lemma map_flat_map_singletons {A B C : Type} (F : A -> list B) (f : B -> C) (h : A -> C)
    (l : list A) :
  (forall a, In a l -> exists b, F a = [b] /\ f b = h a) ->
  map f (flat_map F l) = map h l.
Proof.
  induction l as [|a l IH]; simpl; intros HF; [reflexivity|].
  destruct (HF a (or_introl eq_refl)) as [b [-> Hb]]. simpl.
  rewrite Hb, IH; [reflexivity|]. intros a' Ha'. apply HF. now right.
Qed.

Lemma summary_list_counts (df : list MetricRow) (g : string * string) :
  In g (group_keys df) ->
  exists s, summary_list df g = [s]
            /\ num_points s = List.length (filter (in_group g) df)
            /\ num_anomalies_negative_diff s = flagged_in df g.
Proof.
  intros Hg. destruct (summary_list_single df g Hg) as (first & rest & Hrows & ->).
  eexists. split; [reflexivity|].
  cbn [num_points num_anomalies_negative_diff summary_of]. rewrite <- Hrows. split.
  - apply Permutation_length, group_rows_perm.
  - rewrite sum_bool_map. unfold flagged_in. rewrite <- filter_filter_andb.
    apply Permutation_length, Permutation_filter_eq, group_rows_perm.
Qed.

(** The table counts every row of the frame once: the numbers of points add
    up to the number of rows, and the numbers of anomalies to the number of
    flagged rows. *)
Theorem summary_totals (df : list MetricRow) :
  list_sum (map num_points (fst (build_summary_table df))) = List.length df
  /\ list_sum (map num_anomalies_negative_diff (fst (build_summary_table df)))
     = List.length (filter is_anomaly_negative_diff df).
Proof.
  rewrite build_summary_table_rows. split.
  - rewrite (map_flat_map_singletons _ _
               (fun g => List.length (filter (in_group g) df))).
    2:{ intros g Hg. destruct (summary_list_counts df g Hg) as (s & Hs & Hn & _). eauto. }
    rewrite <- (filter_all (fun _ => true) df) at 2 by (apply Forall_forall; reflexivity).
    rewrite <- (group_partition (fun _ => true) df (group_keys df)).
    + reflexivity.
    + apply group_keys_NoDup.
    + intros m Hm _. apply group_keys_In.
      exact (in_map (fun m : MetricRow => group_of m) df m Hm).
  - rewrite (map_flat_map_singletons _ _ (flagged_in df)).
    2:{ intros g Hg. destruct (summary_list_counts df g Hg) as (s & Hs & _ & Hn). eauto. }
    rewrite <- (group_partition is_anomaly_negative_diff df (group_keys df)).
    + reflexivity.
    + apply group_keys_NoDup.
    + intros m Hm _. apply group_keys_In.
      exact (in_map (fun m : MetricRow => group_of m) df m Hm).
Qed.

(** ** The aggregator: anomalies per platform *)

Lemma dict_get_add (p k : string) (n : nat) (d : list (string * nat)) :
  dict_get p (dict_add k n d)
  = if String.eqb k p then Some (or_zero (dict_get p d) + n) else dict_get p d.
Proof.
  induction d as [|[k' v] d IH]; simpl.
  - destruct (String.eqb k p); reflexivity.
  - destruct (String.eqb k' k) eqn:Hk'k; simpl.
    + apply String.eqb_eq in Hk'k. subst k'.
      destruct (String.eqb k p); reflexivity.
    + rewrite IH. destruct (String.eqb k' p) eqn:Hk'p; [|reflexivity].
      destruct (String.eqb k p) eqn:Hkp; [|reflexivity].
      apply String.eqb_eq in Hk'p, Hkp. subst. rewrite String.eqb_refl in Hk'k.
      discriminate.
Qed.

Lemma dict_get_fold (p : string) (c : string * string -> nat)
    (keys : list (string * string)) (d : list (string * nat)) :
  dict_get p (fold_left (fun d g => dict_add (fst g) (c g) d) keys d)
  = if existsb (fun g => String.eqb (fst g) p) keys
    then Some (or_zero (dict_get p d)
               + list_sum (map c (filter (fun g => String.eqb (fst g) p) keys)))
    else dict_get p d.
Proof.
  revert d. induction keys as [|g keys IH]; intros d; simpl; [reflexivity|].
  rewrite IH, dict_get_add.
  destruct (String.eqb (fst g) p); simpl; [|reflexivity].
  destruct (existsb (fun g => String.eqb (fst g) p) keys) eqn:Hex; simpl.
  - f_equal. lia.
  - rewrite (filter_none (fun g => String.eqb (fst g) p) keys).
    + simpl. f_equal. lia.
    + apply Forall_forall. intros g' Hg'.
      destruct (String.eqb (fst g') p) eqn:Hg'p; [|reflexivity].
      assert (Ht : existsb (fun g => String.eqb (fst g) p) keys = true)
        by (apply existsb_exists; eauto).
      congruence.
Qed.

Lemma build_summary_table_dict_fold (df : list MetricRow) (keys : list (string * string))
    (acc : list SummaryRecord * list (string * nat)) :
  (forall g, In g keys -> In g (group_keys df)) ->
  snd (fold_left
         (fun acc g =>
            match summarize_group df g with
            | Some s =>
                (fst acc ++ [s],
                 dict_add (fst g) (num_anomalies_negative_diff s) (snd acc))
            | None => acc
            end) keys acc)
  = fold_left (fun d g => dict_add (fst g) (flagged_in df g) d) keys (snd acc).
Proof.
  revert acc. induction keys as [|g keys IH]; intros acc Hkeys; simpl; [reflexivity|].
  rewrite IH by (intros g' Hg'; apply Hkeys; now right). f_equal.
  destruct (summary_list_counts df g (Hkeys g (or_introl eq_refl))) as (s & Hs & _ & Hn).
  unfold summary_list in Hs. destruct (summarize_group df g) as [s'|]; [|discriminate].
  injection Hs as ->. simpl. now rewrite Hn.
Qed.

Lemma build_summary_table_dict (df : list MetricRow) :
  snd (build_summary_table df)
  = fold_left (fun d g => dict_add (fst g) (flagged_in df g) d) (group_keys df) [].
Proof.
  destruct df as [|m df]; [reflexivity|].
  unfold build_summary_table. now rewrite build_summary_table_dict_fold.
Qed.

(** The dict holds, for each platform of the frame, the number of flagged
    rows of that platform over all its songs, and nothing for a platform
    that is not in the frame. *)
Theorem anomalies_per_platform_lookup (df : list MetricRow) (p : string) :
  dict_get p (snd (build_summary_table df))
  = if existsb (on_platform p) df
    then Some (List.length
                 (filter (fun m => (is_anomaly_negative_diff m && on_platform p m)%bool) df))
    else None.
Proof.
  rewrite build_summary_table_dict, dict_get_fold. simpl dict_get. simpl or_zero.
  assert (Hex : existsb (fun g => String.eqb (fst g) p) (group_keys df)
                = existsb (on_platform p) df).
  { apply eq_true_iff_eq. rewrite !existsb_exists. split.
    - intros [g [Hg Hp]]. apply group_keys_In, in_map_iff in Hg.
      destruct Hg as [m [<- Hm]]. exists m. split; assumption.
    - intros [m [Hm Hp]]. exists (group_of m). split; [|exact Hp].
      apply group_keys_In. exact (in_map (fun m : MetricRow => group_of m) df m Hm). }
  rewrite Hex. destruct (existsb (on_platform p) df); [|reflexivity]. f_equal.
  set (keys := filter (fun g => String.eqb (fst g) p) (group_keys df)).
  rewrite (list_sum_map_ext _
             (fun g => List.length
                         (filter (fun m => ((is_anomaly_negative_diff m && on_platform p m)
                                            && in_group g m)%bool) df))).
  - apply group_partition.
    + apply NoDup_filter, group_keys_NoDup.
    + intros m Hm Hq. apply andb_true_iff in Hq. destruct Hq as [_ Hp].
      apply filter_In. split; [|exact Hp].
      apply group_keys_In. exact (in_map (fun m : MetricRow => group_of m) df m Hm).
  - intros g Hg. apply filter_In in Hg. destruct Hg as [_ Hp].
    apply String.eqb_eq in Hp. unfold flagged_in. f_equal.
    apply filter_ext. intros m. unfold on_platform.
    destruct (in_group g m) eqn:Hin; [|now rewrite !andb_false_r].
    unfold in_group in Hin. apply group_eqb_eq in Hin.
    assert (Hpm : platform m = p) by (rewrite <- Hp, <- Hin; reflexivity).
    rewrite Hpm, String.eqb_refl, !andb_true_r. reflexivity.
Qed.

(** ** cmd_render for one song *)

Lemma unique_const (g : string * string) (l : list (string * string)) :
  l <> [] -> (forall x, In x l -> x = g) -> unique l = [g].
Proof.
  induction l as [|x l IH]; intros Hne Hall; [congruence|].
  assert (Hx : x = g) by (apply Hall; now left). subst x. simpl.
  destruct l as [|y l]; [reflexivity|].
  assert (Hex : existsb (group_eqb g) (y :: l) = true).
  { apply existsb_group_eqb. left. apply Hall. right. now left. }
  rewrite Hex. apply IH; [discriminate|]. intros x Hx. apply Hall. now right.
Qed.

(** A frame of one song gives a table of one row and a dict of one entry. *)
Lemma build_summary_table_one_song (df : list MetricRow) (g : string * string) :
  df <> [] -> (forall m : MetricRow, In m df -> group_of m = g) ->
  exists s,
    build_summary_table df = ([s], [(fst g, num_anomalies_negative_diff s)])
    /\ summary_group s = g
    /\ num_points s = List.length df
    /\ num_anomalies_negative_diff s = List.length (filter is_anomaly_negative_diff df).
Proof.
  intros Hne Hall.
  assert (Hkeys : group_keys df = [g]).
  { unfold group_keys. rewrite (unique_const g); [reflexivity| |].
    - destruct df; [congruence|discriminate].
    - intros x Hx. apply in_map_iff in Hx. destruct Hx as [m [<- Hm]]. now apply Hall. }
  assert (Hg : In g (group_keys df)) by (rewrite Hkeys; now left).
  destruct (summary_list_counts df g Hg) as (s & Hs & Hpoints & Hflag).
  assert (Hin : Forall (fun m => in_group g m = true) df).
  { apply Forall_forall. intros m Hm. unfold in_group. apply group_eqb_eq. now apply Hall. }
  exists s. split; [|split; [|split]].
  - rewrite (surjective_pairing (build_summary_table df)).
    rewrite build_summary_table_rows, build_summary_table_dict, Hkeys. simpl.
    rewrite Hs, Hflag. reflexivity.
  - apply (summary_list_group df g). rewrite Hs. now left.
  - rewrite Hpoints. now rewrite filter_all.
  - rewrite Hflag. unfold flagged_in. rewrite <- filter_filter_andb.
    now rewrite (filter_all (in_group g)).
Qed.

End AggregatorMore.

Section Render.
Context {pd : Pandas}.

(** With a platform and a song given, [cmd_render] summarises that song
    alone: every metric row is of the song, the table has one row whose
    number of points is the number of metric rows and whose number of
    anomalies is the count the metrics engine returned, and the dict has
    that count under the platform. *)
Theorem cmd_render_one_song (df_raw : list RawRecord) (p s : string)
    (dup num : nat) (df_metrics : list MetricRow) (df_summary : list SummaryRecord)
    (per_platform : list (string * nat)) :
  p <> "" -> s <> "" ->
  cmd_render df_raw (Some p) (Some s)
  = Some (Tables dup df_metrics num df_summary per_platform) ->
  df_metrics <> []
  /\ (forall m : MetricRow, In m df_metrics -> platform m = p /\ song_id m = s)
  /\ (exists row : SummaryRecord,
        df_summary = [row]
        /\ summary_group row = (p, s)
        /\ num_points row = List.length df_metrics
        /\ num_anomalies_negative_diff row = num)
  /\ per_platform = [(p, num)].
Proof.
  intros Hp Hs. unfold cmd_render. destruct df_raw as [|r0 df_raw]; [discriminate|].
  destruct (normalize (r0 :: df_raw)) as [[df_norm dup']|]; [|discriminate].
  unfold filter_column.
  rewrite (proj2 (String.eqb_neq p "") Hp), (proj2 (String.eqb_neq s "") Hs).
  set (rows := filter (fun r : Row => String.eqb (song_id r) s)
                      (filter (fun r : Row => String.eqb (platform r) p) df_norm)).
  destruct rows as [|r rows'] eqn:Hrows; [discriminate|].
  destruct (add_metrics (r :: rows')) as [out num'] eqn:Hadd.
  destruct (build_summary_table out) as [table dict] eqn:Htable.
  intros Heq. injection Heq as <- <- <- <- <-.
  assert (Hout : out = fst (add_metrics (r :: rows'))) by now rewrite Hadd.
  assert (Hnum : num' = List.length (filter is_anomaly_negative_diff out)).
  { rewrite Hout, <- add_metrics_count, Hadd. reflexivity. }
  assert (Hgroup : forall m : MetricRow, In m out -> platform m = p /\ song_id m = s).
  { intros m Hm. assert (Hr : In (row m) (r :: rows')).
    { apply (in_map row) in Hm. rewrite Hout, add_metrics_rows in Hm.
      now apply sort_values_In in Hm. }
    rewrite <- Hrows in Hr. subst rows. apply filter_In in Hr. destruct Hr as [Hr Hsong].
    apply filter_In in Hr. destruct Hr as [_ Hplat].
    apply String.eqb_eq in Hsong, Hplat. auto. }
  assert (Hne : out <> []).
  { intros Hnil. apply (f_equal (@List.length _)) in Hnil.
    rewrite Hout, add_metrics_length in Hnil. discriminate. }
  destruct (build_summary_table_one_song out (p, s) Hne) as (row & Hrow & Hg & Hpts & Hflag).
  { intros m Hm. destruct (Hgroup m Hm) as [<- <-]. reflexivity. }
  rewrite Htable in Hrow. injection Hrow as -> ->.
  split; [exact Hne|]. split; [exact Hgroup|]. split.
  - exists row. repeat split; try assumption. congruence.
  - simpl. now rewrite Hflag, <- Hnum.
Qed.

End Render.

Lemma cmd_render_one_song_witness :
  exists (dup num : nat) (df_metrics : list MetricRow) (row : SummaryRecord)
         (per_platform : list (string * nat)),
    cmd_render (pd := iso_pandas) Sample.three_points (Some "GENIE") (Some "1")
    = Some (Tables dup df_metrics num [row] per_platform)
    /\ num_points row = List.length df_metrics
    /\ per_platform = [("GENIE", num)].
Proof.
  assert (H : exists dup df_metrics num df_summary per_platform,
             cmd_render (pd := iso_pandas) Sample.three_points (Some "GENIE") (Some "1")
             = Some (Tables dup df_metrics num df_summary per_platform))
    by (eexists _, _, _, _, _; vm_compute; reflexivity).
  destruct H as (dup & df_metrics & num & df_summary & per_platform & H).
  destruct (cmd_render_one_song (pd := iso_pandas) _ "GENIE" "1" _ _ _ _ _
              ltac:(discriminate) ltac:(discriminate) H)
    as (_ & _ & (row & Hrow & _ & Hpoints & _) & Hdict).
  exists dup, num, df_metrics, row, per_platform. subst df_summary.
  split; [exact H|]. split; assumption.
Defined.

Lemma summary_boundaries_witness :
  exists s : SummaryRecord,
    In s (Sample.summaries_of (pd := iso_pandas) Sample.three_points)
    /\ ts_leb (first_timestamp s) (last_timestamp s) = true.
Proof.
  assert (H : exists s, nth_error (Sample.summaries_of (pd := iso_pandas) Sample.three_points) 0 = Some s)
    by (eexists; vm_compute; reflexivity).
  destruct H as [s H]. apply nth_error_In in H. exists s. split; [exact H|].
  destruct (summary_boundaries _ s H) as (Hbounds & _ & (m & Hm & Hg & <- & _)).
  apply (Hbounds m Hm Hg).
Defined.

(** ** The key column and the timestamp string *)

Section KeysMore.
Context {pd : Pandas}.

Lemma groupby_tail1_full {A : Type} (by_ : A -> string) (l : list A) :
  List.length (groupby_tail1 by_ l) = List.length l -> NoDup (map by_ l).
Proof.
  induction l as [|x l IH]; simpl; [constructor|].
  pose proof (groupby_tail1_filter_le by_ (fun _ => true) l) as Hle.
  rewrite !(filter_all (fun _ => true)) in Hle by (apply Forall_forall; reflexivity).
  destruct (existsb (has_key by_ (by_ x)) l) eqn:Hex; simpl; intros Hlen; [lia|].
  constructor; [|apply IH; lia].
  rewrite <- existsb_has_key. congruence.
Qed.

(** The normaliser reports no collision exactly when the keys of the frame
    are pairwise distinct. *)
Theorem normalize_frame_no_collision_iff (df : list Row) :
  snd (fst (normalize_frame df)) = 0 <-> NoDup (map key df).
Proof.
  rewrite normalize_frame_eq. simpl. split; [|apply duplicated_NoDup].
  intros Hzero. pose proof (dedup_count df) as Hcount. rewrite Hzero in Hcount.
  unfold dedup in Hcount.
  rewrite <- (sort_values_quick_length key_leb df) in Hcount.
  apply groupby_tail1_full in Hcount.
  eapply Permutation_NoDup; [|exact Hcount].
  apply Permutation_map, sort_values_quick_perm.
Qed.

End KeysMore.

Lemma two_digits (n : nat) :
  n < 100 ->
  exists a b : ascii,
    zfill 2 (str_int (Z.of_nat n)) = String a (String b "")
    /\ Iso.number [a; b] = Some (Z.of_nat n).
Proof.
  intros Hn.
  do 100 (destruct n as [|n]; [eexists _, _; split; reflexivity|]).
  lia.
Qed.

(** For an hour and a minute below 100 the string handed to [to_datetime] is
    the date, a space, and the hour and the minute as two decimal digits
    each, separated by a colon. *)
Theorem ts_str_two_digit_fields (c : Columns) :
  (0 <= hour c < 100)%Z -> (0 <= minute c < 100)%Z ->
  exists h1 h2 m1 m2 : ascii,
    ts_str c
    = (date c ++ " " ++ String h1 (String h2 (":" ++ String m1 (String m2 ""))))%string
    /\ Iso.number [h1; h2] = Some (hour c)
    /\ Iso.number [m1; m2] = Some (minute c)
    /\ String.length (ts_str c) = String.length (date c) + 6.
Proof.
  intros Hh Hm.
  destruct (two_digits (Z.to_nat (hour c))) as (h1 & h2 & Hhs & Hhn); [lia|].
  destruct (two_digits (Z.to_nat (minute c))) as (m1 & m2 & Hms & Hmn); [lia|].
  rewrite Z2Nat.id in Hhs, Hhn, Hms, Hmn by lia.
  exists h1, h2, m1, m2. unfold ts_str. rewrite Hhs, Hms.
  split; [reflexivity|]. split; [exact Hhn|]. split; [exact Hmn|].
  generalize (date c). intros s. induction s as [|a s IH]; simpl; [reflexivity|].
  simpl in IH. now rewrite IH.
Qed.

Lemma ts_str_two_digit_fields_witness :
  exists h1 h2 m1 m2 : ascii,
    ts_str (mkColumns "GENIE" "1" "A" "AA" "2025-12-17" 7 5 NaN NaN)
    = String.append "2025-12-17 " (String h1 (String h2 (String ":" (String m1 (String m2 ""))))).
Proof.
  destruct (ts_str_two_digit_fields (mkColumns "GENIE" "1" "A" "AA" "2025-12-17" 7 5 NaN NaN))
    as (h1 & h2 & m1 & m2 & Hs & _); [simpl; lia..|].
  exists h1, h2, m1, m2. exact Hs.
Defined.
